(** * golog: a process-wide leveled logger with one background writer

    A shallow embedding of [golog.go] (package [golog]) and the properties
    of its delivery pipeline: the severity filter of the emit calls, the
    line the writer daemon prints, the flush barrier of [Fatal], the
    destination swaps of [Open] and [Rotate], and the daemon start/stop
    control.

    Layout:
    - [Text]     strings as Go has them (byte sequences), the pieces of
                 [fmt], [strings], [path/filepath] and [time] the package calls;
    - [Severity] [Level], [level_string], [ToLevel];
    - the data model ([FileLog], [Caller], [Message]) and the package-level
      variables, gathered in one record [World];
    - [Go A], goroutine bodies as trees of atomic actions, with the
      scheduler of a pool of goroutines;
    - the functions of [golog.go], one definition per function;
    - [Rev0], the earlier revision of the package kept beside it, as
      state transformers;
    - the theorems: one call run alone ([exec]), then invariants over
      every schedule of a pool of goroutines ([run]). *)

From Stdlib Require Import ZArith String Ascii List Lia Bool DecimalString.
From stdpp Require Import base list strings.
Import ListNotations.

#[local] Set Warnings "-register-all".
#[local] Open Scope string_scope.
#[local] Open Scope list_scope.
#[local] Open Scope Z_scope.

(* ================================================================== *)
(** * Text: the library calls on strings *)
(* ================================================================== *)

Module Text.

#[local] Open Scope string_scope.

(** Decimal rendering, as [strconv] does it: no padding, a leading
    minus sign for a negative number. *)
Definition itoa (n : Z) : string := NilZero.string_of_int (Z.to_int n).

(** [n] in decimal, padded with zeroes on the left to [w] digits. *)
Fixpoint zeroes (k : nat) : string :=
  match k with O => "" | S k' => String "0" (zeroes k') end.

Definition zero_pad (w : nat) (n : Z) : string :=
  let d := itoa n in zeroes (w - String.length d) ++ d.

Fixpoint spaces (k : nat) : string :=
  match k with O => "" | S k' => String " " (spaces k') end.

(** [%<w>s]: the text right-justified in a field of [w] characters;
    a text longer than the field is printed whole. *)
Definition rjust (w : nat) (s : string) : string :=
  spaces (w - String.length s) ++ s.

(** ** strings.ToUpper on ASCII text

    [strings.ToUpper] maps every letter to its upper case.  On a string
    of ASCII bytes that is the byte map below (Go takes the same fast
    path); bytes outside a-z are kept. *)
Definition upper_byte (c : ascii) : ascii :=
  let n := nat_of_ascii c in
  if ((97 <=? n)%nat && (n <=? 122)%nat)%bool then ascii_of_nat (n - 32) else c.

Fixpoint ascii_ToUpper (s : string) : string :=
  match s with
  | EmptyString => EmptyString
  | String c r => String (upper_byte c) (ascii_ToUpper r)
  end.

(** ** path/filepath.Split, second component

    The text after the final separator (the whole path when it has no
    separator); the separator is the slash. *)
Definition is_sep (c : ascii) : bool := Ascii.eqb c "/".

Fixpoint has_sep (s : string) : bool :=
  match s with
  | EmptyString => false
  | String c r => is_sep c || has_sep r
  end.

Fixpoint Split_file (path : string) : string :=
  match path with
  | EmptyString => EmptyString
  | String c rest =>
      if has_sep rest then Split_file rest
      else if is_sep c then rest else path
  end.

(** ** fmt.Sprintf

    The directives the package's own format strings use: [%s], [%d],
    [%v], each with an optional decimal width, and [%%].  A operand of
    the wrong kind, a missing operand and operands left over are
    rendered the way [fmt] reports them.  Flags and precisions are not
    interpreted. *)
Inductive arg : Type :=
| AStr (s : string)
| AInt (n : Z).

Definition digit_of (c : ascii) : option nat :=
  let n := nat_of_ascii c in
  if ((48 <=? n)%nat && (n <=? 57)%nat)%bool then Some (n - 48)%nat else None.

Definition bad_verb (c : ascii) (a : arg) : string :=
  match a with
  | AStr s => "%!" ++ String c ("(string=" ++ s ++ ")")
  | AInt n => "%!" ++ String c ("(int=" ++ itoa n ++ ")")
  end.

Definition verb (c : ascii) (a : arg) : string :=
  match a with
  | AStr s =>
      if (Ascii.eqb c "s" || Ascii.eqb c "v")%bool then s else bad_verb c a
  | AInt n =>
      if (Ascii.eqb c "d" || Ascii.eqb c "v")%bool then itoa n else bad_verb c a
  end.

Definition field (width : option nat) (s : string) : string :=
  match width with
  | None => s
  | Some w => rjust w s
  end.

Fixpoint extra (args : list arg) : string :=
  match args with
  | [] => ""
  | a :: rest =>
      (match a with
       | AStr s => "string=" ++ s
       | AInt n => "int=" ++ itoa n
       end) ++
      (match rest with [] => "" | _ => ", " ++ extra rest end)
  end.

(** [inverb = Some width] after a percent sign. *)
Fixpoint render (inverb : option (option nat)) (format : string)
    (args : list arg) : string :=
  match format with
  | EmptyString =>
      match inverb with
      | Some _ => "%!(NOVERB)"
      | None =>
          match args with
          | [] => ""
          | _ => "%!(EXTRA " ++ extra args ++ ")"
          end
      end
  | String c rest =>
      match inverb with
      | None =>
          if Ascii.eqb c "%" then render (Some None) rest args
          else String c (render None rest args)
      | Some width =>
          match digit_of c with
          | Some d =>
              let w := match width with None => d | Some w => (10 * w + d)%nat end in
              render (Some (Some w)) rest args
          | None =>
              if Ascii.eqb c "%" then String "%" (render None rest args)
              else
                match args with
                | [] => "%!" ++ String c ("(MISSING)" ++ render None rest [])
                | a :: args' => field width (verb c a) ++ render None rest args'
                end
          end
      end
  end.

Definition Sprintf (format : string) (a : list arg) : string :=
  render None format a.

(** ** time.Time and Format("Jan 2 15:04:05.000") *)
Record Time : Type := {
  month : Z;        (* 1 .. 12 *)
  day : Z;          (* 1 .. 31 *)
  hour : Z;         (* 0 .. 23 *)
  minute : Z;       (* 0 .. 59 *)
  second : Z;       (* 0 .. 59 *)
  nanosecond : Z    (* 0 .. 999999999 *)
}.

Definition month_names : list string :=
  ["January"; "February"; "March"; "April"; "May"; "June"; "July";
   "August"; "September"; "October"; "November"; "December"].

Definition Mon (t : Time) : string :=
  match month_names !! Z.to_nat (month t - 1) with
  | Some m => substring 0 3 m
  | None => "%!M"
  end.

(** The layout ["Jan 2 15:04:05.000"]: month name cut to three letters,
    day of the month without padding, then hour, minute and second on
    two digits and the milliseconds on three. *)
Definition Format_stamp (t : Time) : string :=
  Mon t ++ " " ++ itoa (day t) ++ " " ++
  zero_pad 2 (hour t) ++ ":" ++ zero_pad 2 (minute t) ++ ":" ++
  zero_pad 2 (second t) ++ "." ++ zero_pad 3 (nanosecond t / 1000000).

Definition valid_time (t : Time) : Prop :=
  1 <= month t <= 12 /\ 1 <= day t <= 31 /\ 0 <= hour t < 24 /\
  0 <= minute t < 60 /\ 0 <= second t < 60 /\
  0 <= nanosecond t < 1000000000.

End Text.

(* ================================================================== *)
(** * Severity *)
(* ================================================================== *)

(** [type Level int] *)
Definition Level : Type := Z.

Definition DEBUG : Level := 0.
Definition INFO : Level := 1.
Definition WARN : Level := 2.
Definition ERROR : Level := 3.
Definition FATAL : Level := 4.
Definition INVALID : Level := -1.

Definition level_string : list string :=
  ["DEBUG"; "INFO"; "WARN"; "ERROR"; "FATAL"].

(** [level_string[l]]: indexing the array; [None] is the run-time panic
    of an index out of range. *)
Definition level_string_at (l : Level) : option string :=
  if l <? 0 then None else level_string !! Z.to_nat l.

Section ToLevel.

(** [strings.ToUpper], whatever it does outside ASCII. *)
Variable ToUpper : string -> string.

(** [for l, s := range level_string { if str == s { return Level(l) } }]
    from index [l] on, then [return Level(-1)]. *)
Fixpoint range_level_string (str : string) (l : Z) (names : list string) : Level :=
  match names with
  | [] => -1
  | s :: rest =>
      if String.eqb str s then l else range_level_string str (l + 1) rest
  end.

Definition ToLevel (str : string) : Level :=
  let str := ToUpper str in
  range_level_string str 0 level_string.

End ToLevel.

(* ================================================================== *)
(** * Data model *)
(* ================================================================== *)

(** An [*os.File]: the standard error stream, or a descriptor the host
    handed out. *)
Inductive File : Type :=
| os_Stderr
| os_Fd (n : nat).

(** An [error] value, by the text of its [Error()]. *)
Definition error : Type := string.

Record FileLog : Type := {
  writer : File;
  path : string
}.

Record Caller : Type := {
  caller_filename : string;
  caller_line : Z
}.

Record Message : Type := {
  caller : Caller;
  message : string;
  level : Level
}.

(** What [runtime.Caller(1)] finds for the frame that called the
    function: the file and the line of the call, or nothing. *)
Definition Frame : Type := option (string * Z).

Definition runtime_Caller (fr : Frame) : string * Z * bool :=
  match fr with
  | Some (file, line) => (file, line, true)
  | None => ("", 0, false)
  end.

(** ** The host: file system, streams and clock *)
Record Host : Type := {
  (** the answer of [os.OpenFile name flag perm]: an error, or [None]
      when the file opens *)
  openfile : string -> Z -> Z -> option error;
  next_fd : nat;                 (* the descriptor the next open returns *)
  clock : Text.Time;             (* what [time.Now()] reads *)
  out : list (File * string);    (* every write so far, oldest first *)
  synced : list File             (* every [Sync] so far, oldest first *)
}.

(** The two ways the run time can stop the process under this package. *)
Inductive crash : Type :=
| index_out_of_range          (* indexing [level_string] outside 0 .. 4 *)
| unlock_of_unlocked_mutex.   (* [Unlock] on a mutex nobody holds *)

Inductive Status : Type :=
| Running
| Exited (code : Z)           (* [os.Exit code] *)
| Panicked (why : crash).

(** ** The package-level variables, the host and the process status *)
Record World : Type := {
  logLevel : Level;
  logger : FileLog;
  prefix : string;
  queue : list Message;          (* [make(chan *Message, 32)], oldest first *)
  quit_signal : list ascii;      (* [make(chan byte, 1)] *)
  termsig : list ascii;          (* [make(chan byte, 1)] *)
  lock : bool;                   (* [sync.Mutex]: [true] while held *)
  has_daemon : bool;
  host : Host;
  status : Status
}.

Definition queue_cap : nat := 32.
Definition quit_signal_cap : nat := 1.
Definition termsig_cap : nat := 1.

Definition set_logLevel (v : Level) (w : World) : World :=
  {| logLevel := v; logger := logger w; prefix := prefix w; queue := queue w;
     quit_signal := quit_signal w; termsig := termsig w; lock := lock w;
     has_daemon := has_daemon w; host := host w; status := status w |}.

Definition set_logger (v : FileLog) (w : World) : World :=
  {| logLevel := logLevel w; logger := v; prefix := prefix w; queue := queue w;
     quit_signal := quit_signal w; termsig := termsig w; lock := lock w;
     has_daemon := has_daemon w; host := host w; status := status w |}.

Definition set_prefix (v : string) (w : World) : World :=
  {| logLevel := logLevel w; logger := logger w; prefix := v; queue := queue w;
     quit_signal := quit_signal w; termsig := termsig w; lock := lock w;
     has_daemon := has_daemon w; host := host w; status := status w |}.

Definition set_queue (v : list Message) (w : World) : World :=
  {| logLevel := logLevel w; logger := logger w; prefix := prefix w; queue := v;
     quit_signal := quit_signal w; termsig := termsig w; lock := lock w;
     has_daemon := has_daemon w; host := host w; status := status w |}.

Definition set_quit_signal (v : list ascii) (w : World) : World :=
  {| logLevel := logLevel w; logger := logger w; prefix := prefix w; queue := queue w;
     quit_signal := v; termsig := termsig w; lock := lock w;
     has_daemon := has_daemon w; host := host w; status := status w |}.

Definition set_termsig (v : list ascii) (w : World) : World :=
  {| logLevel := logLevel w; logger := logger w; prefix := prefix w; queue := queue w;
     quit_signal := quit_signal w; termsig := v; lock := lock w;
     has_daemon := has_daemon w; host := host w; status := status w |}.

Definition set_lock (v : bool) (w : World) : World :=
  {| logLevel := logLevel w; logger := logger w; prefix := prefix w; queue := queue w;
     quit_signal := quit_signal w; termsig := termsig w; lock := v;
     has_daemon := has_daemon w; host := host w; status := status w |}.

Definition set_has_daemon (v : bool) (w : World) : World :=
  {| logLevel := logLevel w; logger := logger w; prefix := prefix w; queue := queue w;
     quit_signal := quit_signal w; termsig := termsig w; lock := lock w;
     has_daemon := v; host := host w; status := status w |}.

Definition set_host (v : Host) (w : World) : World :=
  {| logLevel := logLevel w; logger := logger w; prefix := prefix w; queue := queue w;
     quit_signal := quit_signal w; termsig := termsig w; lock := lock w;
     has_daemon := has_daemon w; host := v; status := status w |}.

Definition set_status (v : Status) (w : World) : World :=
  {| logLevel := logLevel w; logger := logger w; prefix := prefix w; queue := queue w;
     quit_signal := quit_signal w; termsig := termsig w; lock := lock w;
     has_daemon := has_daemon w; host := host w; status := v |}.

(** A write of [s] to the stream [f]; the result of the write is not
    looked at by any caller in the package. *)
Definition host_write (f : File) (s : string) (h : Host) : Host :=
  {| openfile := openfile h; next_fd := next_fd h; clock := clock h;
     out := out h ++ [(f, s)]; synced := synced h |}.

Definition host_sync (f : File) (h : Host) : Host :=
  {| openfile := openfile h; next_fd := next_fd h; clock := clock h;
     out := out h; synced := synced h ++ [f] |}.

Definition host_opened (h : Host) : Host :=
  {| openfile := openfile h; next_fd := S (next_fd h); clock := clock h;
     out := out h; synced := synced h |}.

Definition running (w : World) : bool :=
  match status w with Running => true | _ => false end.

(* ================================================================== *)
(** * Goroutines *)
(* ================================================================== *)

(** The body of a goroutine that returns an [A]: a tree of atomic
    actions.  [Step f] is one action: from the world [w] it can move to
    any of the pairs of [f w], a new world and the rest of the body; it is
    blocked in [w] when [f w] is empty (a full or empty channel, a held
    mutex).  [Spawn k] is the statement [go daemon()], the only [go]
    statement of the package, followed by [k]. *)
Inductive Go (A : Type) : Type :=
| Ret (a : A)
| Step (f : World -> list (World * Go A))
| Spawn (k : Go A).

Arguments Ret {A} a.
Arguments Step {A} f.
Arguments Spawn {A} k.

Fixpoint bind {A B : Type} (p : Go A) (k : A -> Go B) : Go B :=
  match p with
  | Ret a => k a
  | Step f => Step (fun w => List.map (fun wp => (fst wp, bind (snd wp) k)) (f w))
  | Spawn p' => Spawn (bind p' k)
  end.

Declare Scope go_scope.
Delimit Scope go_scope with go.
Notation "x <- p ;; k" := (bind p (fun x => k))
  (at level 100, p at next level, right associativity) : go_scope.
Notation "p ;; k" := (bind p (fun _ => k))
  (at level 100, right associativity) : go_scope.
#[local] Open Scope go_scope.

(** One action that never blocks. *)
Definition atomic {A : Type} (f : World -> World * A) : Go A :=
  Step (fun w => [(fst (f w), Ret (snd (f w)))]).

Definition get {A : Type} (f : World -> A) : Go A :=
  atomic (fun w => (w, f w)).

Definition modify (f : World -> World) : Go unit :=
  atomic (fun w => (f w, tt)).

(** One action that waits until [ready] holds. *)
Definition await {A : Type} (ready : World -> bool) (f : World -> World * A) : Go A :=
  Step (fun w => if ready w then [(fst (f w), Ret (snd (f w)))] else []).

(** ** Channels and the mutex *)

(** [queue <- m] *)
Definition send_queue (m : Message) : Go unit :=
  await (fun w => (length (queue w) <? queue_cap)%nat)
        (fun w => (set_queue (queue w ++ [m]) w, tt)).

(** [quit_signal <- b] *)
Definition send_quit_signal (b : ascii) : Go unit :=
  await (fun w => (length (quit_signal w) <? quit_signal_cap)%nat)
        (fun w => (set_quit_signal (quit_signal w ++ [b]) w, tt)).

(** [<-quit_signal] *)
Definition recv_quit_signal : Go unit :=
  await (fun w => match quit_signal w with [] => false | _ => true end)
        (fun w => (set_quit_signal (tl (quit_signal w)) w, tt)).

(** [termsig <- b] *)
Definition send_termsig (b : ascii) : Go unit :=
  await (fun w => (length (termsig w) <? termsig_cap)%nat)
        (fun w => (set_termsig (termsig w ++ [b]) w, tt)).

(** [lock.Lock()] *)
Definition lock_Lock : Go unit :=
  await (fun w => negb (lock w)) (fun w => (set_lock true w, tt)).

(** [lock.Unlock()]; unlocking a mutex that is not held is a fatal
    run-time error. *)
Definition lock_Unlock : Go unit :=
  modify (fun w =>
    if lock w then set_lock false w
    else set_status (Panicked unlock_of_unlocked_mutex) w).

(** ** Host calls *)

Definition O_WRONLY : Z := 1.
Definition O_CREATE : Z := 64.
Definition O_APPEND : Z := 1024.
Definition mode_0660 : Z := 432.    (* octal 0660 *)

Definition os_OpenFile (name : string) (flag perm : Z) : Go (File + error) :=
  atomic (fun w =>
    match openfile (host w) name flag perm with
    | Some e => (w, inr e)
    | None => (set_host (host_opened (host w)) w, inl (os_Fd (next_fd (host w))))
    end).

(** [fmt.Fprintf(f, format, a...)] *)
Definition fmt_Fprintf (f : File) (format : string) (a : list Text.arg) : Go unit :=
  modify (fun w => set_host (host_write f (Text.Sprintf format a) (host w)) w).

(** [f.Sync()], its error dropped. *)
Definition File_Sync (f : File) : Go unit :=
  modify (fun w => set_host (host_sync f (host w)) w).

(** [os.Exit(code)] *)
Definition os_Exit {A : Type} (code : Z) (after : A) : Go A :=
  atomic (fun w => (set_status (Exited code) w, after)).

(* ================================================================== *)
(** * The functions of golog.go *)
(* ================================================================== *)

Import Text (arg, AStr, AInt).

Definition LF : string := String "010" "".

Definition SetLogLevel (level : Level) : Go unit :=
  modify (set_logLevel level).

Definition NewFd (w : File) : FileLog :=
  {| writer := w; path := "" |}.

Definition NewFile (f : string) : Go (FileLog + error) :=
  r <- os_OpenFile f (Z.lor (Z.lor O_WRONLY O_APPEND) O_CREATE) mode_0660 ;;
  match r with
  | inr err => Ret (inr err)
  | inl w =>
      let fl := NewFd w in
      Ret (inl {| writer := writer fl; path := f |})
  end.

Definition filename (path : string) : string := Text.Split_file path.

(** The envelope every emit function builds from what [runtime.Caller(1)]
    reports: the placeholder location when it reports nothing. *)
Definition envelope (fr : Frame) (text : string) (lvl : Level) : Message :=
  let '(file, line, ok) := runtime_Caller fr in
  let '(file, line) := if negb ok then ("<unknown>", 0) else (file, line) in
  {| caller := {| caller_filename := filename file; caller_line := line |};
     message := text;
     level := lvl |}.

(** ** daemon *)

Definition line_format : string := "[%5s @ %s][%s:%d] %s%s" +:+ LF.

(** The [Fprintf] of the daemon.  Its operands are evaluated first, so
    an index out of range in [level_string] panics before anything is
    written. *)
Definition daemon_print (msg : Message) : Go unit :=
  modify (fun w =>
    match level_string_at (level msg) with
    | None => set_status (Panicked index_out_of_range) w
    | Some name =>
        set_host
          (host_write (writer (logger w))
             (Text.Sprintf line_format
                [AStr name; AStr (Text.Format_stamp (clock (host w)));
                 AStr (caller_filename (caller msg)); AInt (caller_line (caller msg));
                 AStr (prefix w); AStr (message msg)])
             (host w)) w
    end).

(** [select { case <-termsig: ...  case msg := <-queue: ... }]: either
    ready case may be taken. *)
Definition daemon_select : Go (option Message) :=
  Step (fun w =>
    match termsig w with
    | [] => []
    | _ :: rest => [(set_termsig rest w, Ret None)]
    end ++
    match queue w with
    | [] => []
    | msg :: rest => [(set_queue rest w, Ret (Some msg))]
    end).

(** The message case of the [select]. *)
Definition daemon_write (msg : Message) : Go unit :=
  lock_Lock ;;
  daemon_print msg ;;
  (if level msg =? FATAL then send_quit_signal zero else Ret tt) ;;
  lock_Unlock.

(** One turn of the [for] loop of [daemon]: [true] when it returns. *)
Definition daemon_turn : Go bool :=
  r <- daemon_select ;;
  match r with
  | None => Ret true
  | Some msg => daemon_write msg ;; Ret false
  end.

(** [daemon()] up to the end of the first turn of its loop; the
    scheduler starts the next turn when one ends with [false]. *)
Definition daemon : Go bool :=
  modify (set_has_daemon true) ;;
  daemon_turn.

Definition SetPrefix (pre : string) : Go unit :=
  modify (set_prefix pre).

(** ** The emit functions *)

Definition Fatal (msg : string) (fr : Frame) : Go unit :=
  send_queue (envelope fr msg FATAL) ;;
  (* Wait for flushing logs. *)
  recv_quit_signal ;;
  os_Exit 1 tt.

Definition Fatalf (format : string) (a : list arg) (fr : Frame) : Go unit :=
  send_queue (envelope fr (Text.Sprintf format a) FATAL) ;;
  (* Wait for flushing logs. *)
  recv_quit_signal ;;
  os_Exit 1 tt.

Definition Error (msg : string) (fr : Frame) : Go unit :=
  l <- get logLevel ;;
  if l >? ERROR then Ret tt
  else send_queue (envelope fr msg ERROR).

Definition Errorf (format : string) (a : list arg) (fr : Frame) : Go unit :=
  l <- get logLevel ;;
  if l >? ERROR then Ret tt
  else send_queue (envelope fr (Text.Sprintf format a) ERROR).

Definition Warn (msg : string) (fr : Frame) : Go unit :=
  l <- get logLevel ;;
  if l >? WARN then Ret tt
  else send_queue (envelope fr msg WARN).

Definition Warnf (format : string) (a : list arg) (fr : Frame) : Go unit :=
  l <- get logLevel ;;
  if l >? WARN then Ret tt
  else send_queue (envelope fr (Text.Sprintf format a) WARN).

Definition Info (msg : string) (fr : Frame) : Go unit :=
  l <- get logLevel ;;
  if l >? INFO then Ret tt
  else send_queue (envelope fr msg INFO).

Definition Infof (format : string) (a : list arg) (fr : Frame) : Go unit :=
  l <- get logLevel ;;
  if l >? INFO then Ret tt
  else send_queue (envelope fr (Text.Sprintf format a) INFO).

Definition Debug (msg : string) (fr : Frame) : Go unit :=
  l <- get logLevel ;;
  if l >? DEBUG then Ret tt
  else send_queue (envelope fr msg DEBUG).

Definition Debugf (format : string) (a : list arg) (fr : Frame) : Go unit :=
  l <- get logLevel ;;
  if l >? DEBUG then Ret tt
  else send_queue (envelope fr (Text.Sprintf format a) DEBUG).

(** ** Destinations

    [Open] and [Rotate] log through [Infof] and [Errorf]; [here n] is
    what [runtime.Caller(1)] reports there, the frame of the call at line
    [n] of golog.go. *)

Definition Open (f : string) (here : Z -> Frame) : Go (option error) :=
  lock_Lock ;;
  r <- NewFile f ;;
  match r with
  | inr err =>
      fmt_Fprintf os_Stderr "Failed to open file %s: %s" [AStr f; AStr err] ;;
      lock_Unlock ;;
      Ret (Some err)
  | inl fl =>
      modify (set_logger fl) ;;
      Infof "Log ready." [] (here 116) ;;
      lock_Unlock ;;
      Ret None
  end.

Definition OpenFd (fd : File) : Go unit :=
  modify (set_logger (NewFd fd)).

Definition init : Go unit :=
  Spawn (Ret tt).

Definition Start : Go unit :=
  b <- get has_daemon ;;
  if negb b then Spawn (Ret tt) else Ret tt.

Definition Stop : Go unit :=
  b <- get has_daemon ;;
  (if b then send_termsig zero else Ret tt) ;;
  modify (set_has_daemon false).

Definition logger_path : Go string := get (fun w => path (logger w)).

Definition Rotate (here : Z -> Frame) : Go (option error) :=
  lock_Lock ;;
  f <- get (fun w => writer (logger w)) ;;
  File_Sync f ;; (* Ignore error here. *)
  p <- logger_path ;;
  if negb (String.eqb p "") then
    p <- logger_path ;;
    r <- os_OpenFile p (Z.lor (Z.lor O_WRONLY O_APPEND) O_CREATE) mode_0660 ;;
    match r with
    | inr err =>
        p <- logger_path ;;
        Errorf "Reopen log file %s: %s" [AStr p; AStr err] (here 339) ;;
        lock_Unlock ;;
        Ret (Some err)
    | inl newfd =>
        p <- logger_path ;;
        Infof "Reopened log file %s" [AStr p] (here 342) ;;
        let newlog := NewFd newfd in
        p <- logger_path ;;
        modify (set_logger {| writer := writer newlog; path := p |}) ;;
        lock_Unlock ;;
        Ret None
    end
  else
    lock_Unlock ;;
    Ret None.

(* ================================================================== *)
(** * Running goroutines *)
(* ================================================================== *)

(** A goroutine of the process: one of the application, running calls
    of the package, or one running [daemon()]. *)
Inductive goroutine : Type :=
| Body (p : Go unit)
| Daemon (p : Go bool).

(** The moves of one goroutine in the world [w]: the new world, what is
    left of the goroutine, and the goroutines it started.  A goroutine
    that returned has no move, and nothing moves once the process is
    over.  A daemon whose turn ended with [false] starts the next turn of
    its [for] loop.  These are the steps of the goroutines only: the end
    of the process when [main] returns, and the stop by the Go run time
    of a process whose goroutines are all asleep, are not steps here. *)
Definition moves (g : goroutine) (w : World) : list (World * goroutine * list goroutine) :=
  if running w then
    match g with
    | Body (Ret _) => []
    | Body (Step f) => List.map (fun wk => (fst wk, Body (snd wk), [])) (f w)
    | Body (Spawn k) => [(w, Body k, [Daemon daemon])]
    | Daemon (Ret true) => []
    | Daemon (Ret false) => [(w, Daemon daemon_turn, [])]
    | Daemon (Step f) => List.map (fun wk => (fst wk, Daemon (snd wk), [])) (f w)
    | Daemon (Spawn k) => [(w, Daemon k, [Daemon daemon])]
    end
  else [].

Definition Config : Type := World * list goroutine.

(** The scheduler picks goroutine [i] and its move number [j]. *)
Definition sched (ij : nat * nat) (c : Config) : option Config :=
  match snd c !! fst ij with
  | None => None
  | Some g =>
      match moves g (fst c) !! snd ij with
      | None => None
      | Some (w', g', new) => Some (w', <[fst ij := g']> (snd c) ++ new)
      end
  end.

Fixpoint run (schedule : list (nat * nat)) (c : Config) : option Config :=
  match schedule with
  | [] => Some c
  | ij :: rest =>
      match sched ij c with
      | None => None
      | Some c' => run rest c'
      end
  end.

Definition reaches (c c' : Config) : Prop :=
  exists schedule, run schedule c = Some c'.

(** A goroutine still has code to run. *)
Definition alive (g : goroutine) : bool :=
  match g with
  | Body (Ret _) => false
  | Daemon (Ret true) => false
  | _ => true
  end.

Definition is_daemon (g : goroutine) : bool :=
  match g with Daemon _ => true | Body _ => false end.

(** The number of goroutines that are running [daemon()]. *)
Definition daemons (gs : list goroutine) : nat :=
  length (List.filter (fun g => is_daemon g && alive g) gs).

(** ** The process at start *)

Definition boot (h : Host) : World :=
  {| logLevel := INFO;
     logger := NewFd os_Stderr;
     prefix := "";
     queue := [];
     quit_signal := [];
     termsig := [];
     lock := false;
     has_daemon := false;
     host := h;
     status := Running |}.

(** The process once [init] has run: the goroutine [init] started, and
    the goroutines of the application. *)
Definition started (h : Host) (app : list (Go unit)) : Config :=
  (boot h, Daemon daemon :: List.map Body app).

(** ** One call, run alone *)

Inductive outcome (A : Type) : Type :=
| Done (w : World) (a : A) (started : list goroutine)
| Blocked (w : World) (rest : Go A) (started : list goroutine)
| Halted (w : World) (started : list goroutine).

Arguments Done {A} w a started.
Arguments Blocked {A} w rest started.
Arguments Halted {A} w started.

Definition also_started {A : Type} (g : goroutine) (o : outcome A) : outcome A :=
  match o with
  | Done w a gs => Done w a (g :: gs)
  | Blocked w k gs => Blocked w k (g :: gs)
  | Halted w gs => Halted w (g :: gs)
  end.

(** Every way the body [p] can run from [w] when no other goroutine
    moves: it returns, it stays blocked for ever, or the process ends
    under it. *)
Fixpoint exec {A : Type} (p : Go A) (w : World) : list (outcome A) :=
  if running w then
    match p with
    | Ret a => [Done w a []]
    | Step f =>
        match f w with
        | [] => [Blocked w p []]
        | l =>
            (fix each (l : list (World * Go A)) : list (outcome A) :=
               match l with
               | [] => []
               | wk :: l' => exec (snd wk) (fst wk) ++ each l'
               end) l
        end
    | Spawn k => List.map (also_started (Daemon daemon)) (exec k w)
    end
  else [Halted w []].

(** ** Programs of the application

    A goroutine of the application uses the package through its exported
    functions; what it does next may depend on what a call returned. *)
Inductive call : Type -> Type :=
| CSetLogLevel (level : Level) : call unit
| CSetPrefix (pre : string) : call unit
| COpen (f : string) (here : Z -> Frame) : call (option error)
| COpenFd (fd : File) : call unit
| CStart : call unit
| CStop : call unit
| CFatal (msg : string) (fr : Frame) : call unit
| CFatalf (format : string) (a : list arg) (fr : Frame) : call unit
| CError (msg : string) (fr : Frame) : call unit
| CErrorf (format : string) (a : list arg) (fr : Frame) : call unit
| CWarn (msg : string) (fr : Frame) : call unit
| CWarnf (format : string) (a : list arg) (fr : Frame) : call unit
| CInfo (msg : string) (fr : Frame) : call unit
| CInfof (format : string) (a : list arg) (fr : Frame) : call unit
| CDebug (msg : string) (fr : Frame) : call unit
| CDebugf (format : string) (a : list arg) (fr : Frame) : call unit
| CRotate (here : Z -> Frame) : call (option error).

Definition perform {R : Type} (c : call R) : Go R :=
  match c with
  | CSetLogLevel level => SetLogLevel level
  | CSetPrefix pre => SetPrefix pre
  | COpen f here => Open f here
  | COpenFd fd => OpenFd fd
  | CStart => Start
  | CStop => Stop
  | CFatal msg fr => Fatal msg fr
  | CFatalf format a fr => Fatalf format a fr
  | CError msg fr => Error msg fr
  | CErrorf format a fr => Errorf format a fr
  | CWarn msg fr => Warn msg fr
  | CWarnf format a fr => Warnf format a fr
  | CInfo msg fr => Info msg fr
  | CInfof format a fr => Infof format a fr
  | CDebug msg fr => Debug msg fr
  | CDebugf format a fr => Debugf format a fr
  | CRotate here => Rotate here
  end.

Inductive program : Type :=
| Return
| Call {R : Type} (c : call R) (next : R -> program).

Fixpoint body (p : program) : Go unit :=
  match p with
  | Return => Ret tt
  | Call c next => r <- perform c ;; body (next r)
  end.

(** ** The emit functions below FATAL, as one family *)
Inductive emit : Type :=
| EError (msg : string)
| EErrorf (format : string) (a : list arg)
| EWarn (msg : string)
| EWarnf (format : string) (a : list arg)
| EInfo (msg : string)
| EInfof (format : string) (a : list arg)
| EDebug (msg : string)
| EDebugf (format : string) (a : list arg).

Definition emit_call (e : emit) (fr : Frame) : Go unit :=
  match e with
  | EError msg => Error msg fr
  | EErrorf format a => Errorf format a fr
  | EWarn msg => Warn msg fr
  | EWarnf format a => Warnf format a fr
  | EInfo msg => Info msg fr
  | EInfof format a => Infof format a fr
  | EDebug msg => Debug msg fr
  | EDebugf format a => Debugf format a fr
  end.

Definition emit_level (e : emit) : Level :=
  match e with
  | EError _ | EErrorf _ _ => ERROR
  | EWarn _ | EWarnf _ _ => WARN
  | EInfo _ | EInfof _ _ => INFO
  | EDebug _ | EDebugf _ _ => DEBUG
  end.

Definition emit_text (e : emit) : string :=
  match e with
  | EError msg | EWarn msg | EInfo msg | EDebug msg => msg
  | EErrorf format a | EWarnf format a | EInfof format a | EDebugf format a =>
      Text.Sprintf format a
  end.

(* ================================================================== *)
(** * Definitions used by the statements *)
(* ================================================================== *)

(** The flags both [NewFile] and [Rotate] open a log file with. *)
Definition log_flags : Z := Z.lor (Z.lor O_WRONLY O_APPEND) O_CREATE.

(** The world once the destination's stream has been synced. *)
Definition synced_world (w : World) : World :=
  set_host (host_sync (writer (logger w)) (host w)) w.

Module Line.

#[local] Open Scope string_scope.

(** The line as the documentation of the format gives it:
    [[<level, right-justified to 5 chars> @ <stamp>][<file>:<line>] <prefix><text>]
    and a newline. *)
Definition spec_line (level_name stamp file : string) (line : Z)
    (pre text : string) : string :=
  "[" ++ Text.rjust 5 level_name ++ " @ " ++ stamp ++ "][" ++
  file ++ ":" ++ Text.itoa line ++ "] " ++ pre ++ text ++ LF.

Fixpoint digits (s : string) : bool :=
  match s with
  | EmptyString => true
  | String c r =>
      match Text.digit_of c with Some _ => digits r | None => false end
  end.

Definition month_abbreviations : list string :=
  ["Jan"; "Feb"; "Mar"; "Apr"; "May"; "Jun";
   "Jul"; "Aug"; "Sep"; "Oct"; "Nov"; "Dec"].

(** [Mon D HH:MM:SS.mmm] *)
Definition stamp_shape (s : string) : Prop :=
  exists mon d hh mm ss mmm : string,
    s = mon ++ " " ++ d ++ " " ++ hh ++ ":" ++ mm ++ ":" ++ ss ++ "." ++ mmm /\
    In mon month_abbreviations /\
    digits d = true /\ (1 <= String.length d <= 2)%nat /\
    digits hh = true /\ String.length hh = 2%nat /\
    digits mm = true /\ String.length mm = 2%nat /\
    digits ss = true /\ String.length ss = 2%nat /\
    digits mmm = true /\ String.length mmm = 3%nat.

Definition padded (w : nat) (n : Z) : bool :=
  digits (Text.zero_pad w n) && (String.length (Text.zero_pad w n) =? w)%nat.

Definition day_digits (n : Z) : bool :=
  digits (Text.itoa n) && (1 <=? String.length (Text.itoa n))%nat
  && (String.length (Text.itoa n) <=? 2)%nat.

End Line.

(** The world after the daemon has printed the line of [msg] and, for a
    FATAL message, signalled it. *)
Definition printed (msg : Message) (name : string) (w : World) : World :=
  let line :=
    Line.spec_line name (Text.Format_stamp (clock (host w)))
      (caller_filename (caller msg)) (caller_line (caller msg))
      (prefix w) (message msg) in
  let w' := set_host (host_write (writer (logger w)) line (host w)) w in
  if level msg =? FATAL then set_quit_signal [zero] w' else w'.

Definition app_Start : program :=
  Call CStart (fun _ => Return).

Definition app_Stop_Start_Start : program :=
  Call CStop (fun _ => Call CStart (fun _ => Call CStart (fun _ => Return))).

(** Every atomic action of the body, taken in a running process, moves
    the world along [R]. *)
Inductive within (R : World -> World -> Prop) {A : Type} : Go A -> Prop :=
| within_Ret (a : A) : within R (Ret a)
| within_Step (f : World -> list (World * Go A)) :
    (forall w1 w2 k, running w1 = true -> In (w2, k) (f w1) -> R w1 w2) ->
    (forall w1 w2 k, running w1 = true -> In (w2, k) (f w1) -> within R k) ->
    within R (Step f)
| within_Spawn (k : Go A) : within R k -> within R (Spawn k).

(** What one action of an exported function may do.  It leaves the
    queue alone or puts one envelope at its back, with a level from DEBUG
    to ERROR, or to FATAL when [fatal] is set; it only adds to what has
    been written; it leaves the signal channel alone, or takes one signal
    from it when [fatal] is set; the process goes on, or dies on an
    unlock, or exits with code 1 when [fatal] is set. *)
Definition api_step (fatal : bool) (w1 w2 : World) : Prop :=
  (queue w2 = queue w1 \/
   exists m, queue w2 = queue w1 ++ [m] /\
             0 <= level m <= (if fatal then FATAL else ERROR)) /\
  (exists es, out (host w2) = out (host w1) ++ es) /\
  (status w2 = status w1 \/
   status w2 = Panicked unlock_of_unlocked_mutex \/
   (fatal = true /\ status w2 = Exited 1)) /\
  (quit_signal w2 = quit_signal w1 \/
   (fatal = true /\ quit_signal w2 = tl (quit_signal w1))).

Definition fatal_call {R : Type} (c : call R) : bool :=
  match c with
  | CFatal _ _ | CFatalf _ _ _ => true
  | _ => false
  end.

(** A program that never calls [Fatal] or [Fatalf]. *)
Fixpoint fatal_free (p : program) : Prop :=
  match p with
  | Return => True
  | Call c next => fatal_call c = false /\ forall r, fatal_free (next r)
  end.

Section Rely.

(** An invariant [I] of the world and a preorder [G] that every step
    follows. *)
Variable I : World -> Prop.
Variable G : World -> World -> Prop.

(** From the world [w] on, however the other goroutines move the world
    along [G], every action of the body keeps [I] and follows [G], and a
    value [a] is returned only in a world where [Q a] holds. *)
Inductive ok {A : Type} (Q : A -> World -> Prop) : World -> Go A -> Prop :=
| ok_Ret (w : World) (a : A) : Q a w -> ok Q w (Ret a)
| ok_Step (w : World) (f : World -> list (World * Go A)) :
    (forall w1 w2 k, G w w1 -> I w1 -> running w1 = true -> In (w2, k) (f w1) ->
       I w2 /\ G w1 w2) ->
    (forall w1 w2 k, G w w1 -> I w1 -> running w1 = true -> In (w2, k) (f w1) ->
       ok Q w2 k) ->
    ok Q w (Step f)
| ok_Spawn (w : World) (k : Go A) : ok Q w k -> ok Q w (Spawn k).

Definition anything {A : Type} (a : A) (w : World) : Prop := True.

Definition good (w : World) (g : goroutine) : Prop :=
  match g with
  | Body p => ok anything w p
  | Daemon p => ok anything w p
  end.

Definition kept (c : Config) : Prop :=
  I (fst c) /\ Forall (good (fst c)) (snd c).

End Rely.

Definition table_level (m : Message) : Prop := DEBUG <= level m <= FATAL.

Definition levels_in_table (w : World) : Prop :=
  Forall table_level (queue w) /\ status w <> Panicked index_out_of_range.

Definition any_step (w1 w2 : World) : Prop := True.

(** What one action of the daemon does to the queue and the status once
    it holds a message. *)
Definition writer_step (w1 w2 : World) : Prop :=
  queue w2 = queue w1 /\
  (status w2 = status w1 \/ status w2 = Panicked unlock_of_unlocked_mutex).

(** A line of the FATAL envelope [m] has been written to some stream. *)
Definition delivered (m : Message) (w : World) : Prop :=
  exists (f : File) (stamp pre : string),
    In (f, Line.spec_line "FATAL" stamp (caller_filename (caller m))
             (caller_line (caller m)) pre (message m))
       (out (host w)).

(** What holds while one goroutine calls [Fatal] with the envelope [m0]
    and no other does: a signal is in the channel, or the process has
    exited with code 1, only after the line of [m0] was written; and [m0]
    is the only FATAL envelope around. *)
Definition barrier (m0 : Message) (w : World) : Prop :=
  (quit_signal w <> [] -> delivered m0 w) /\
  (status w = Exited 1 -> delivered m0 w) /\
  Forall (fun m => level m = FATAL -> m = m0) (queue w).

Definition keeps_delivered (m0 : Message) (w1 w2 : World) : Prop :=
  delivered m0 w1 -> delivered m0 w2.

(** [Fatal] after its send: the wait for the signal, then the exit. *)
Definition fatal_wait : Go unit :=
  recv_quit_signal ;; os_Exit 1 tt.

(** ** A sample process *)

Definition sample_host : Host :=
  {| openfile := fun _ _ _ => None;
     next_fd := 3;
     clock := {| Text.month := 10; Text.day := 31; Text.hour := 5;
                 Text.minute := 14; Text.second := 7;
                 Text.nanosecond := 12345678 |};
     out := [];
     synced := [] |}.

(** The same host with a file system that refuses every open. *)
Definition readonly_host : Host :=
  {| openfile := fun _ _ _ => Some "permission denied";
     next_fd := 3;
     clock := clock sample_host;
     out := [];
     synced := [] |}.

Definition sample_frame : Frame := Some ("/src/app/main.go", 42).

Definition sample_here (line : Z) : Frame := Some ("/src/golog/golog.go", line).

(** The process at start, its destination replaced by a log file. *)
Definition sample_logging (h : Host) : World :=
  set_logger {| writer := os_Fd 2; path := "/var/log/app.log" |} (boot h).

Definition sample_app : program :=
  Call (CInfo "y" sample_frame) (fun _ =>
  Call (CFatal "z" sample_frame) (fun _ => Return)).

(** ** Steps and invariants of the pool, continued *)
(** How one action may change the queue: not at all, by one envelope
    put at the back of a queue that had room, or by the oldest envelope
    taken from the front. *)
Definition queue_step (w1 w2 : World) : Prop :=
  queue w2 = queue w1 \/
  (exists m, queue w2 = queue w1 ++ [m] /\ (length (queue w1) < queue_cap)%nat) \/
  (exists m, queue w1 = m :: queue w2).

Definition queue_within_cap (w : World) : Prop :=
  (length (queue w) <= queue_cap)%nat.

(* ================================================================== *)
(** * The earlier revision of the package (src/unnamed/part_000)

    The same package before envelopes carried the caller and before
    [Start] and [Stop] existed.  Its functions are embedded as state
    transformers run without interruption: [Done] with the new state,
    [Waiting] at the state where the body blocks, [Crashed] on a run-time
    panic. *)
(* ================================================================== *)

Module Rev0.

(** [type Message struct { message string; level Level }] *)
Record Message : Type := {
  message : string;
  level : Level
}.

Record State : Type := {
  logLevel : Level;
  logger : FileLog;
  prefix : string;
  queue : list Message;          (* [make(chan *Message, 32)] *)
  quit_signal : list ascii;      (* [make(chan byte, 1)] *)
  lock : bool;
  host : Host;
  exited : option Z              (* the code given to [os.Exit] *)
}.

Inductive result : Type :=
| Done (s : State)
| Waiting (s : State)
| Crashed (s : State).

Definition with_logLevel (v : Level) (s : State) : State :=
  {| logLevel := v; logger := logger s; prefix := prefix s; queue := queue s;
     quit_signal := quit_signal s; lock := lock s; host := host s;
     exited := exited s |}.

Definition with_queue (v : list Message) (s : State) : State :=
  {| logLevel := logLevel s; logger := logger s; prefix := prefix s; queue := v;
     quit_signal := quit_signal s; lock := lock s; host := host s;
     exited := exited s |}.

Definition with_quit_signal (v : list ascii) (s : State) : State :=
  {| logLevel := logLevel s; logger := logger s; prefix := prefix s; queue := queue s;
     quit_signal := v; lock := lock s; host := host s; exited := exited s |}.

Definition with_lock (v : bool) (s : State) : State :=
  {| logLevel := logLevel s; logger := logger s; prefix := prefix s; queue := queue s;
     quit_signal := quit_signal s; lock := v; host := host s; exited := exited s |}.

Definition with_host (v : Host) (s : State) : State :=
  {| logLevel := logLevel s; logger := logger s; prefix := prefix s; queue := queue s;
     quit_signal := quit_signal s; lock := lock s; host := v; exited := exited s |}.

Definition with_exited (v : option Z) (s : State) : State :=
  {| logLevel := logLevel s; logger := logger s; prefix := prefix s; queue := queue s;
     quit_signal := quit_signal s; lock := lock s; host := host s; exited := v |}.

(** Sequencing: the next body runs only after the first is done. *)
Definition andthen (r : result) (k : State -> result) : result :=
  match r with
  | Done s => k s
  | Waiting s => Waiting s
  | Crashed s => Crashed s
  end.

Definition SetLogLevel (level : Level) (s : State) : result :=
  Done (with_logLevel level s).

(** [queue <- m] *)
Definition send_queue (m : Message) (s : State) : result :=
  if (length (queue s) <? queue_cap)%nat
  then Done (with_queue (queue s ++ [m]) s)
  else Waiting s.

Definition line_format : string := "[%5s @ %s] %s%s" +:+ LF.

(** The message case of the daemon's [select], for the message [msg]
    it received. *)
Definition daemon_message (msg : Message) (s : State) : result :=
  (* lock.Lock() *)
  if lock s then Waiting s
  else
    let s := with_lock true s in
    andthen
      (if level msg >=? logLevel s then
         match level_string_at (level msg) with
         | None => Crashed s
         | Some name =>
             Done (with_host
                     (host_write (writer (logger s))
                        (Text.Sprintf line_format
                           [AStr name; AStr (Text.Format_stamp (clock (host s)));
                            AStr (prefix s); AStr (message msg)])
                        (host s)) s)
         end
       else Done s)
      (fun s =>
         andthen
           (if level msg =? FATAL then
              (* quit_signal <- '\x00' *)
              if (length (quit_signal s) <? quit_signal_cap)%nat
              then Done (with_quit_signal (quit_signal s ++ [zero]) s)
              else Waiting s
            else Done s)
           (fun s => (* lock.Unlock() *) Done (with_lock false s))).

(** One turn of the daemon's loop: it has no stop signal to listen to. *)
Definition daemon_turn (s : State) : result :=
  match queue s with
  | [] => Waiting s
  | msg :: rest => daemon_message msg (with_queue rest s)
  end.

(** [Fatal] after its send: [<-quit_signal], then [os.Exit(1)]. *)
Definition Fatal_wait (s : State) : result :=
  match quit_signal s with
  | [] => Waiting s
  | _ :: rest => Done (with_exited (Some 1) (with_quit_signal rest s))
  end.

Definition Fatal (msg : string) (s : State) : result :=
  andthen (send_queue {| message := msg; level := FATAL |} s)
    (* Wait for flushing logs. *)
    Fatal_wait.

Definition Fatalf (format : string) (a : list arg) (s : State) : result :=
  Fatal (Text.Sprintf format a) s.

Definition Error (msg : string) (s : State) : result :=
  if logLevel s >? ERROR then Done s
  else send_queue {| message := msg; level := ERROR |} s.

Definition Errorf (format : string) (a : list arg) (s : State) : result :=
  if logLevel s >? ERROR then Done s
  else send_queue {| message := Text.Sprintf format a; level := ERROR |} s.

Definition Warn (msg : string) (s : State) : result :=
  if logLevel s >? WARN then Done s
  else send_queue {| message := msg; level := WARN |} s.

Definition Warnf (format : string) (a : list arg) (s : State) : result :=
  if logLevel s >? WARN then Done s
  else send_queue {| message := Text.Sprintf format a; level := WARN |} s.

Definition Info (msg : string) (s : State) : result :=
  if logLevel s >? INFO then Done s
  else send_queue {| message := msg; level := INFO |} s.

Definition Infof (format : string) (a : list arg) (s : State) : result :=
  if logLevel s >? INFO then Done s
  else send_queue {| message := Text.Sprintf format a; level := INFO |} s.

Definition Debug (msg : string) (s : State) : result :=
  if logLevel s >? DEBUG then Done s
  else send_queue {| message := msg; level := DEBUG |} s.

Definition Debugf (format : string) (a : list arg) (s : State) : result :=
  if logLevel s >? DEBUG then Done s
  else send_queue {| message := Text.Sprintf format a; level := DEBUG |} s.

(** The state at start. *)
Definition boot (h : Host) : State :=
  {| logLevel := INFO; logger := NewFd os_Stderr; prefix := ""; queue := [];
     quit_signal := []; lock := false; host := h; exited := None |}.

(** The line as the format string of this revision gives it. *)
Definition spec_line (level_name stamp pre text : string) : string :=
  ("[" ++ Text.rjust 5 level_name ++ " @ " ++ stamp ++ "] " ++ pre ++ text ++ LF)%string.

End Rev0.

(** ** The barrier with any number of callers *)
(** A line of some FATAL message has been written to some stream. *)
Definition fatal_written (w : World) : Prop :=
  exists (f : File) (stamp file : string) (line : Z) (pre text : string),
    In (f, Line.spec_line "FATAL" stamp file line pre text) (out (host w)).

(** What holds in every process, however many goroutines call [Fatal]: a
    signal is in the channel, or the process has exited with code 1, only
    after a FATAL line was written. *)
Definition signal_after_write (w : World) : Prop :=
  (quit_signal w <> [] -> fatal_written w) /\
  (status w = Exited 1 -> fatal_written w).

Definition keeps_written (w1 w2 : World) : Prop :=
  fatal_written w1 -> fatal_written w2.

(** The run of a process whose application is one call of [Fatal]: the
    daemon starts, [Fatal] sends, the daemon takes the message, locks,
    prints, signals and unlocks, [Fatal] takes the signal and exits. *)
Definition fatal_schedule : list (nat * nat) :=
  [(0, 0); (1, 0); (0, 0); (0, 0); (0, 0); (0, 0); (0, 0); (1, 0); (1, 0)]%nat.

(** The run of a process with two goroutines calling [Fatal]: both
    send, the daemon handles the first message, and the second caller
    takes the signal and exits. *)
Definition two_fatal_schedule : list (nat * nat) :=
  [(0, 0); (1, 0); (2, 0); (0, 0); (0, 0); (0, 0); (0, 0); (0, 0); (2, 0); (2, 0)]%nat.

(** The world at the end of that run: the line written to the standard
    error stream, the flag set by the daemon, the process exited. *)
Definition after_Fatal (h : Host) (msg : string) (fr : Frame) : World :=
  {| logLevel := INFO;
     logger := NewFd os_Stderr;
     prefix := "";
     queue := [];
     quit_signal := [];
     termsig := [];
     lock := false;
     has_daemon := true;
     host :=
       host_write os_Stderr
         (Line.spec_line "FATAL" (Text.Format_stamp (clock h))
            (caller_filename (caller (envelope fr msg FATAL)))
            (caller_line (caller (envelope fr msg FATAL)))
            "" msg) h;
     status := Exited 1 |}.

(** The world at the end of the run of the two callers: the line of the
    first message written, the second message still queued, the process
    exited. *)
Definition after_two_Fatal : World :=
  {| logLevel := INFO;
     logger := NewFd os_Stderr;
     prefix := "";
     queue := [envelope sample_frame "b" FATAL];
     quit_signal := [];
     termsig := [];
     lock := false;
     has_daemon := true;
     host :=
       host_write os_Stderr
         ("[FATAL @ Oct 31 05:14:07.012][main.go:42] a" +:+ LF) sample_host;
     status := Exited 1 |}.

(** The last two characters of a string. *)
Fixpoint last_two (s : string) : string :=
  match s with
  | String _ (String _ (String _ _) as r) => last_two r
  | _ => s
  end.

(* ================================================================== *)
(** * Severity: ToLevel *)
(* ================================================================== *)

Section ToLevelFacts.

Variable ToUpper : string -> string.

Lemma range_level_string_from (str : string) (l : Z) (names : list string) :
  ~ In str names -> range_level_string str l names = -1.
Proof.
  revert l. induction names as [|s rest IH]; intros l Hnot; simpl.
  - reflexivity.
  - destruct (String.eqb_spec str s) as [->|Hne].
    + exfalso. apply Hnot. now left.
    + apply IH. intros Hin. apply Hnot. now right.
Qed.

Lemma ToLevel_no_match (str : string) :
  ~ In (ToUpper str) level_string -> ToLevel ToUpper str = INVALID.
Proof. intros H. unfold ToLevel. now apply range_level_string_from. Qed.

End ToLevelFacts.

(** C4.  [ToLevel] upper-cases its argument and compares the result, whole,
    with the five level names: the result is the level whose name the
    upper-cased argument equals, and [INVALID] (-1) exactly when it equals
    none; so ["debug"] is [DEBUG], ["trace"] is [INVALID], and neither a
    proper prefix of a name nor a name followed by more text matches. *)
Theorem ToLevel_case_insensitive_exact :
  forall (ToUpper : string -> string) (str : string),
    (ToLevel ToUpper str = DEBUG <-> ToUpper str = "DEBUG") /\
    (ToLevel ToUpper str = INFO <-> ToUpper str = "INFO") /\
    (ToLevel ToUpper str = WARN <-> ToUpper str = "WARN") /\
    (ToLevel ToUpper str = ERROR <-> ToUpper str = "ERROR") /\
    (ToLevel ToUpper str = FATAL <-> ToUpper str = "FATAL") /\
    (ToLevel ToUpper str = INVALID <-> ~ In (ToUpper str) level_string) /\
    ToLevel Text.ascii_ToUpper "debug" = DEBUG /\
    ToLevel Text.ascii_ToUpper "Info" = INFO /\
    ToLevel Text.ascii_ToUpper "wArN" = WARN /\
    ToLevel Text.ascii_ToUpper "ERROR" = ERROR /\
    ToLevel Text.ascii_ToUpper "fatal" = FATAL /\
    ToLevel Text.ascii_ToUpper "trace" = INVALID /\
    ToLevel Text.ascii_ToUpper "deb" = INVALID /\
    ToLevel Text.ascii_ToUpper "debugging" = INVALID /\
    ToLevel Text.ascii_ToUpper " info" = INVALID /\
    ToLevel Text.ascii_ToUpper "" = INVALID.
Proof.
  intros ToUpper str.
  assert (Hcases :
    ToUpper str = "DEBUG" \/ ToUpper str = "INFO" \/ ToUpper str = "WARN" \/
    ToUpper str = "ERROR" \/ ToUpper str = "FATAL" \/
    ~ In (ToUpper str) level_string).
  { unfold level_string. simpl.
    destruct (String.eqb_spec (ToUpper str) "DEBUG"); [tauto|].
    destruct (String.eqb_spec (ToUpper str) "INFO"); [tauto|].
    destruct (String.eqb_spec (ToUpper str) "WARN"); [tauto|].
    destruct (String.eqb_spec (ToUpper str) "ERROR"); [tauto|].
    destruct (String.eqb_spec (ToUpper str) "FATAL"); [tauto|].
    do 5 right. intros [H|[H|[H|[H|[H|[]]]]]]; congruence. }
  repeat match goal with |- _ /\ _ => split end;
    try reflexivity.
  all: destruct Hcases as [H|[H|[H|[H|[H|H]]]]];
    try (rewrite (ToLevel_no_match ToUpper str H));
    try (unfold ToLevel; rewrite H; simpl);
    unfold DEBUG, INFO, WARN, ERROR, FATAL, INVALID, level_string in *;
    split; intros H'; try congruence; try discriminate; try lia;
    try (exfalso; apply H; rewrite H'; simpl; tauto);
    try (exfalso; apply H'; rewrite ?H; simpl; tauto);
    try assumption.
Qed.

(* ================================================================== *)
(** * Facts about running a body alone *)
(* ================================================================== *)

Lemma Go_induction (A : Type) (P : Go A -> Prop) :
  (forall a, P (Ret a)) ->
  (forall f, (forall w w' k, In (w', k) (f w) -> P k) -> P (Step f)) ->
  (forall k, P k -> P (Spawn k)) ->
  forall p, P p.
Proof.
  intros HRet HStep HSpawn.
  exact (fix IH (p : Go A) : P p :=
    match p with
    | Ret a => HRet a
    | Step f =>
        HStep f (fun w =>
          (fix each (l : list (World * Go A)) :
               forall w' k, In (w', k) l -> P k :=
             match l with
             | [] => fun w' k (H : False) => match H with end
             | wk :: l' =>
                 fun w' k (H : wk = (w', k) \/ In (w', k) l') =>
                   match H with
                   | or_introl e => eq_ind (snd wk) P (IH (snd wk)) k (f_equal snd e)
                   | or_intror H' => each l' w' k H'
                   end
             end) (f w))
    | Spawn k => HSpawn k (IH k)
    end).
Qed.

Lemma exec_halted {A : Type} (p : Go A) (w : World) :
  running w = false -> exec p w = [Halted w []].
Proof. intros H. destruct p; simpl; now rewrite H. Qed.

Lemma running_status (w : World) : running w = true <-> status w = Running.
Proof. unfold running. destruct (status w); split; congruence. Qed.

(** Take a world apart and put what is known about its fields in place. *)
Ltac open_world w :=
  repeat match goal with
         | H : running w = true |- _ => apply running_status in H
         end;
  destruct w as [? ? ? ? ? ? ? ? [? ? ? ? ?] ?]; unfold running in *;
  simpl in *; subst; simpl in *.

Ltac case_gtb :=
  match goal with
  | |- context [?a >? ?b] => destruct (Z.gtb_spec a b)
  end.

Lemma envelope_message (fr : Frame) (text : string) (lvl : Level) :
  message (envelope fr text lvl) = text.
Proof. destruct fr as [[file line]|]; reflexivity. Qed.

Lemma envelope_level (fr : Frame) (text : string) (lvl : Level) :
  level (envelope fr text lvl) = lvl.
Proof. destruct fr as [[file line]|]; reflexivity. Qed.

(* ================================================================== *)
(** * The severity filter of the emit functions *)
(* ================================================================== *)

(** C2.  An emit function below FATAL, called at level [L] in a running
    process: when the threshold is above [L] it returns at once and
    changes nothing; otherwise it puts its envelope at the back of the
    queue (waiting, with nothing changed, while the queue holds 32
    envelopes). *)
Theorem emit_enqueues_iff_at_or_above_threshold :
  forall (e : emit) (fr : Frame) (w : World),
    running w = true ->
    (emit_level e < logLevel w ->
       exec (emit_call e fr) w = [Done w tt []]) /\
    (logLevel w <= emit_level e -> (length (queue w) < queue_cap)%nat ->
       exec (emit_call e fr) w =
         [Done (set_queue (queue w ++ [envelope fr (emit_text e) (emit_level e)]) w) tt []]) /\
    (logLevel w <= emit_level e -> (queue_cap <= length (queue w))%nat ->
       exec (emit_call e fr) w =
         [Blocked w (send_queue (envelope fr (emit_text e) (emit_level e))) []]).
Proof.
  intros e fr w Hrun.
  assert (Hroom : forall n : nat, (n < queue_cap)%nat -> (n <? queue_cap)%nat = true)
    by (intros n Hn; now apply Nat.ltb_lt).
  assert (Hfull : forall n : nat, (queue_cap <= n)%nat -> (n <? queue_cap)%nat = false)
    by (intros n Hn; now apply Nat.ltb_ge).
  open_world w.
  repeat split.
  - intros Hlt.
    destruct e; simpl in *; unfold ERROR, WARN, INFO, DEBUG in *;
      (case_gtb; [reflexivity | lia]).
  - intros Hle Hlen. apply Hroom in Hlen.
    destruct e; simpl in *; unfold ERROR, WARN, INFO, DEBUG in *;
      (case_gtb; [lia |]);
      simpl; rewrite Hlen; reflexivity.
  - intros Hle Hlen. apply Hfull in Hlen.
    destruct e; simpl in *; unfold ERROR, WARN, INFO, DEBUG in *;
      (case_gtb; [lia |]);
      simpl; rewrite Hlen; reflexivity.
Qed.

(** C10.  [SetLogLevel] stores whatever level it is given.  With the
    threshold set to [INVALID] (-1), every emit function below FATAL
    passes the filter and queues its envelope. *)
Theorem SetLogLevel_INVALID_lets_every_level_through :
  forall (level : Level) (w : World),
    running w = true ->
    exec (SetLogLevel level) w = [Done (set_logLevel level w) tt []] /\
    (forall (e : emit) (fr : Frame),
       (length (queue w) < queue_cap)%nat ->
       exec (SetLogLevel INVALID ;; emit_call e fr) w =
         [Done (set_queue (queue w ++ [envelope fr (emit_text e) (emit_level e)])
                  (set_logLevel INVALID w)) tt []]) /\
    (forall (e : emit), INVALID <= emit_level e).
Proof.
  intros level w Hrun. split; [|split].
  - open_world w. reflexivity.
  - intros e fr Hlen. apply Nat.ltb_lt in Hlen.
    open_world w.
    destruct e; simpl; rewrite Hlen; reflexivity.
  - intros e. destruct e; unfold INVALID; simpl; unfold ERROR, WARN, INFO, DEBUG; lia.
Qed.

(* ================================================================== *)
(** * Destinations: Open and Rotate *)
(* ================================================================== *)

(** C7.  [Rotate] on a destination without a path, in a running process
    with the mutex free: it syncs the stream and returns [nil]; the
    destination, the queue and every other variable are as before.  The
    destination at start and the one [OpenFd] installs have no path. *)
Theorem Rotate_without_path_is_a_noop :
  forall (here : Z -> Frame) (w : World),
    running w = true ->
    lock w = false ->
    path (logger w) = "" ->
    exec (Rotate here) w = [Done (synced_world w) None []] /\
    logger (synced_world w) = logger w /\
    (forall h, path (logger (boot h)) = "") /\
    (forall fd w0, running w0 = true ->
       exists w1, exec (OpenFd fd) w0 = [Done w1 tt []] /\ path (logger w1) = "").
Proof.
  intros here w Hrun Hlock Hpath.
  repeat split.
  - open_world w. destruct logger0 as [wr pa]. simpl in *. subst. reflexivity.
  - intros fd w0 Hrun0. eexists. split.
    + open_world w0. reflexivity.
    + reflexivity.
Qed.

(** C6.  [Rotate] on a destination with a path, in a running process
    with the mutex free.  When the host refuses to reopen the path,
    [Rotate] calls [Errorf] (which queues an ERROR envelope unless the
    threshold is above ERROR), returns the error and leaves the
    destination in place.  When the path reopens, [Rotate] calls [Infof]
    (which queues an INFO envelope unless the threshold is above INFO),
    installs a destination made of the new descriptor and the same path,
    and returns [nil]. *)
Theorem Rotate_with_path :
  forall (here : Z -> Frame) (w : World),
    running w = true ->
    lock w = false ->
    path (logger w) <> "" ->
    let p := path (logger w) in
    let reopened :=
      set_logger {| writer := os_Fd (next_fd (host w)); path := p |}
        (set_host (host_opened (host (synced_world w))) (synced_world w)) in
    (forall err, openfile (host w) p log_flags mode_0660 = Some err ->
       let m := envelope (here 339)
                  (Text.Sprintf "Reopen log file %s: %s" [AStr p; AStr err]) ERROR in
       (logLevel w <= ERROR -> (length (queue w) < queue_cap)%nat ->
          exec (Rotate here) w =
            [Done (set_queue (queue w ++ [m]) (synced_world w)) (Some err) []]) /\
       (ERROR < logLevel w ->
          exec (Rotate here) w = [Done (synced_world w) (Some err) []]) /\
       logger (synced_world w) = logger w) /\
    (openfile (host w) p log_flags mode_0660 = None ->
       let m := envelope (here 342)
                  (Text.Sprintf "Reopened log file %s" [AStr p]) INFO in
       (logLevel w <= INFO -> (length (queue w) < queue_cap)%nat ->
          exec (Rotate here) w =
            [Done (set_queue (queue w ++ [m]) reopened) None []]) /\
       (INFO < logLevel w ->
          exec (Rotate here) w = [Done reopened None []]) /\
       path (logger reopened) = path (logger w) /\
       writer (logger reopened) = os_Fd (next_fd (host w))).
Proof.
  intros here w Hrun Hlock Hpath p reopened.
  subst p reopened. unfold synced_world, log_flags.
  destruct w as [lv [wr pa] pre q qs ts lk hd [opn nfd clk o sy] st].
  apply running_status in Hrun. simpl in *. subst.
  assert (Hne : String.eqb pa "" = false) by now apply String.eqb_neq.
  split.
  - intros err Hopen. repeat split.
    + intros Hle Hlen. apply Nat.ltb_lt in Hlen. unfold ERROR in *.
      simpl. rewrite Hne. simpl. rewrite Hopen. simpl.
      case_gtb; [lia|]. simpl. rewrite Hlen. reflexivity.
    + intros Hgt. unfold ERROR in *.
      simpl. rewrite Hne. simpl. rewrite Hopen. simpl.
      case_gtb; [|lia]. reflexivity.
  - intros Hopen. repeat split.
    + intros Hle Hlen. apply Nat.ltb_lt in Hlen. unfold INFO in *.
      simpl. rewrite Hne. simpl. rewrite Hopen. simpl.
      case_gtb; [lia|]. simpl. rewrite Hlen. reflexivity.
    + intros Hgt. unfold INFO in *.
      simpl. rewrite Hne. simpl. rewrite Hopen. simpl.
      case_gtb; [|lia]. reflexivity.
Qed.

(** C5.  [Open f] in a running process with the mutex free.  When the
    host refuses to open [f], [Open] writes the failure to the standard
    error stream, returns the error and leaves the destination in place.
    When [f] opens, [Open] installs a destination made of the new
    descriptor and the path [f], calls [Infof("Log ready.")] (which queues
    an INFO envelope unless the threshold is above INFO) and returns
    [nil]. *)
Theorem Open_failure_and_success :
  forall (f : string) (here : Z -> Frame) (w : World),
    running w = true ->
    lock w = false ->
    let opened :=
      set_logger {| writer := os_Fd (next_fd (host w)); path := f |}
        (set_host (host_opened (host w)) w) in
    (forall err, openfile (host w) f log_flags mode_0660 = Some err ->
       let reported :=
         set_host
           (host_write os_Stderr
              (Text.Sprintf "Failed to open file %s: %s" [AStr f; AStr err]) (host w)) w in
       exec (Open f here) w = [Done reported (Some err) []] /\
       logger reported = logger w /\
       queue reported = queue w) /\
    (openfile (host w) f log_flags mode_0660 = None ->
       let m := envelope (here 116) (Text.Sprintf "Log ready." []) INFO in
       (logLevel w <= INFO -> (length (queue w) < queue_cap)%nat ->
          exec (Open f here) w = [Done (set_queue (queue w ++ [m]) opened) None []]) /\
       (INFO < logLevel w ->
          exec (Open f here) w = [Done opened None []]) /\
       message m = "Log ready." /\
       logger opened = {| writer := os_Fd (next_fd (host w)); path := f |}).
Proof.
  intros f here w Hrun Hlock opened. subst opened. unfold log_flags.
  destruct w as [lv [wr pa] pre q qs ts lk hd [opn nfd clk o sy] st].
  apply running_status in Hrun. simpl in *. subst.
  split.
  - intros err Hopen. repeat split.
    simpl. rewrite Hopen. reflexivity.
  - intros Hopen. repeat split.
    + intros Hle Hlen. apply Nat.ltb_lt in Hlen. unfold INFO in *.
      simpl. rewrite Hopen. simpl.
      case_gtb; [lia|]. simpl. rewrite Hlen. reflexivity.
    + intros Hgt. unfold INFO in *.
      simpl. rewrite Hopen. simpl.
      case_gtb; [|lia]. reflexivity.
    + apply envelope_message.
Qed.

(* ================================================================== *)
(** * The line the daemon prints *)
(* ================================================================== *)

Module LineFacts.

Import Line.
#[local] Open Scope string_scope.

Lemma below_forall (P : Z -> bool) (n : nat) :
  forallb P (List.map Z.of_nat (seq 0 n)) = true ->
  forall z, 0 <= z < Z.of_nat n -> P z = true.
Proof.
  intros H z Hz. rewrite forallb_forall in H. apply H.
  apply in_map_iff. exists (Z.to_nat z). split; [lia|].
  apply in_seq. lia.
Qed.

Lemma zero_pad_2 (n : Z) : 0 <= n < 100 -> padded 2 n = true.
Proof. apply (below_forall (padded 2) 100). vm_compute. reflexivity. Qed.

Lemma zero_pad_3 (n : Z) : 0 <= n < 1000 -> padded 3 n = true.
Proof. apply (below_forall (padded 3) 1000). vm_compute. reflexivity. Qed.

Lemma day_1_or_2_digits (n : Z) : 0 <= n < 100 -> day_digits n = true.
Proof. apply (below_forall day_digits 100). vm_compute. reflexivity. Qed.

Lemma Mon_abbreviation (t : Text.Time) :
  1 <= Text.month t <= 12 -> In (Text.Mon t) month_abbreviations.
Proof.
  intros H. unfold Text.Mon.
  assert (Hm : exists k : nat, (k < 12)%nat /\ Z.to_nat (Text.month t - 1) = k)
    by (exists (Z.to_nat (Text.month t - 1)); split; [lia | reflexivity]).
  destruct Hm as [k [Hk ->]].
  do 12 (destruct k as [|k]; [simpl; tauto|]). lia.
Qed.

Lemma Format_stamp_shape (t : Text.Time) :
  Text.valid_time t -> stamp_shape (Text.Format_stamp t).
Proof.
  intros (Hmo & Hd & Hh & Hmi & Hs & Hn).
  exists (Text.Mon t), (Text.itoa (Text.day t)),
    (Text.zero_pad 2 (Text.hour t)), (Text.zero_pad 2 (Text.minute t)),
    (Text.zero_pad 2 (Text.second t)),
    (Text.zero_pad 3 (Text.nanosecond t / 1000000)).
  assert (Hms : 0 <= Text.nanosecond t / 1000000 < 1000).
  { split; [apply Z.div_pos; lia | apply Z.div_lt_upper_bound; lia]. }
  pose proof (day_1_or_2_digits (Text.day t) ltac:(lia)) as Hday.
  pose proof (zero_pad_2 (Text.hour t) ltac:(lia)) as Hhh.
  pose proof (zero_pad_2 (Text.minute t) ltac:(lia)) as Hmm.
  pose proof (zero_pad_2 (Text.second t) ltac:(lia)) as Hss.
  pose proof (zero_pad_3 _ Hms) as Hmmm.
  unfold day_digits, padded in *.
  repeat match goal with
         | H : _ && _ = true |- _ => apply andb_true_iff in H; destruct H
         end.
  repeat match goal with
         | H : (_ =? _)%nat = true |- _ => apply Nat.eqb_eq in H
         | H : (_ <=? _)%nat = true |- _ => apply Nat.leb_le in H
         end.
  split; [reflexivity|].
  split; [now apply Mon_abbreviation|].
  repeat split; assumption.
Qed.

Lemma Split_file_is_base (p : string) : Text.has_sep (Text.Split_file p) = false.
Proof.
  induction p as [|c rest IH]; simpl; [reflexivity|].
  destruct (Text.has_sep rest) eqn:Hrest; [exact IH|].
  destruct (Text.is_sep c) eqn:Hc; [exact Hrest|].
  simpl. now rewrite Hc, Hrest.
Qed.

Lemma level_name_in_field (l : Level) (name : string) :
  level_string_at l = Some name -> String.length (Text.rjust 5 name) = 5%nat.
Proof.
  unfold level_string_at. destruct (l <? 0)%Z; [discriminate|].
  destruct (Z.to_nat l) as [|[|[|[|[|k]]]]]; simpl; intros H;
    inversion H; reflexivity.
Qed.

Lemma level_string_at_valid (l : Level) :
  0 <= l <= 4 -> exists name, level_string_at l = Some name.
Proof.
  intros H. unfold level_string_at.
  destruct (Z.ltb_spec l 0); [lia|].
  assert (Hk : (Z.to_nat l < 5)%nat) by lia.
  destruct (Z.to_nat l) as [|[|[|[|[|k]]]]]; simpl; eauto. lia.
Qed.

End LineFacts.

(** C3.  The daemon, handed a message with a level of the table, in a
    running process with the mutex free (and the signal channel empty):
    it writes one string to the stream of the destination, and nothing
    else; the string is ["["], the level name right-justified in five
    characters, [" @ "], the time in the layout [Mon D HH:MM:SS.mmm],
    ["]["], the file name of the envelope, [":"], its line number in
    decimal, ["] "], the prefix, the text and a newline.  The file name
    of an envelope built by an emit function has no directory part, and
    its line is the line of the calling frame. *)
Theorem daemon_line_format :
  forall (msg : Message) (w : World),
    running w = true ->
    lock w = false ->
    quit_signal w = [] ->
    0 <= level msg <= 4 ->
    exists name : string,
      level_string_at (level msg) = Some name /\
      exec (daemon_write msg) w = [Done (printed msg name w) tt []] /\
      out (host (printed msg name w)) =
        out (host w) ++
        [(writer (logger w),
          Line.spec_line name (Text.Format_stamp (clock (host w)))
            (caller_filename (caller msg)) (caller_line (caller msg))
            (prefix w) (message msg))] /\
      String.length (Text.rjust 5 name) = 5%nat /\
      (Text.valid_time (clock (host w)) ->
         Line.stamp_shape (Text.Format_stamp (clock (host w)))) /\
      (forall (file : string) (line : Z) (text : string) (lvl : Level),
         let c := caller (envelope (Some (file, line)) text lvl) in
         Text.has_sep (caller_filename c) = false /\
         caller_filename c = filename file /\ caller_line c = line).
Proof.
  intros msg w Hrun Hlock Hquit Hlevel.
  destruct (LineFacts.level_string_at_valid (level msg) Hlevel) as [name Hname].
  exists name. split; [exact Hname|].
  split; [|split; [|split; [|split]]].
  - unfold printed, Line.spec_line.
    destruct msg as [[cf cl] text lvl].
    open_world w. unfold daemon_write, daemon_print. simpl.
    rewrite Hname. simpl.
    destruct (lvl =? FATAL); reflexivity.
  - unfold printed. destruct (level msg =? FATAL); reflexivity.
  - now apply (LineFacts.level_name_in_field (level msg)).
  - apply LineFacts.Format_stamp_shape.
  - intros file line text lvl. simpl. repeat split.
    apply LineFacts.Split_file_is_base.
Qed.

(* ================================================================== *)
(** * Start, Stop and the number of daemons *)
(* ================================================================== *)

(** [Start] with the flag set changes nothing and starts nothing; with
    the flag clear it starts one goroutine running [daemon()] and leaves
    the flag as it is: the flag is set by [daemon()] itself, when that
    goroutine first runs. *)
Lemma Start_guarded_by_flag (w : World) :
  running w = true ->
  (has_daemon w = true -> exec Start w = [Done w tt []]) /\
  (has_daemon w = false -> exec Start w = [Done w tt [Daemon daemon]]).
Proof.
  intros Hrun. split; intros Hflag; open_world w; reflexivity.
Qed.

(** C8 (the code departs from it).  Two goroutines end up running
    [daemon()] at once.  First run: the application calls [Start()] once,
    before the goroutine that [init] started has run its first statement.
    Second run: the application calls [Stop()], [Start()], [Start()] in a
    row; the daemon returns on the stop signal, and the two calls of
    [Start] both read the flag before either new goroutine has set it.
    In both runs the two daemons then sit in their loops, flag set. *)
Theorem two_daemons_at_once :
  forall h : Host,
    let flagged := set_has_daemon true (boot h) in
    let once := [Daemon daemon_turn; Body (Ret tt); Daemon daemon_turn] in
    let again :=
      [Daemon (Ret true); Body (Ret tt); Daemon daemon_turn; Daemon daemon_turn] in
    run [(1, 0); (1, 0); (0, 0); (2, 0)]%nat (started h [body app_Start]) =
      Some (flagged, once) /\
    daemons once = 2%nat /\
    run [(0, 0); (1, 0); (1, 0); (1, 0); (0, 0);
         (1, 0); (1, 0); (1, 0); (1, 0); (2, 0); (3, 0)]%nat
        (started h [body app_Stop_Start_Start]) =
      Some (flagged, again) /\
    daemons again = 2%nat /\
    has_daemon flagged = true /\ running flagged = true.
Proof.
  intros h flagged once again. repeat split; reflexivity.
Qed.

(* ================================================================== *)
(** * Invariants of a pool of goroutines *)
(* ================================================================== *)

Lemma within_bind (R : World -> World -> Prop) {A B : Type} (p : Go A) (k : A -> Go B) :
  within R p -> (forall a, within R (k a)) -> within R (bind p k).
Proof.
  intros Hp Hk. induction Hp as [a|f Hstep Hrest IH|p' Hp' IH]; simpl.
  - apply Hk.
  - apply within_Step.
    + intros w1 w2 k' Hrun Hin. apply in_map_iff in Hin.
      destruct Hin as [[w p'] [Heq Hin]]. inversion Heq; subst. eauto.
    + intros w1 w2 k' Hrun Hin. apply in_map_iff in Hin.
      destruct Hin as [[w p'] [Heq Hin]]. inversion Heq; subst. eauto.
  - apply within_Spawn. exact IH.
Qed.

Lemma within_atomic (R : World -> World -> Prop) {A : Type} (f : World -> World * A) :
  (forall w, running w = true -> R w (fst (f w))) -> within R (atomic f).
Proof.
  intros H. apply within_Step.
  - intros w1 w2 k Hrun [Heq|[]]. inversion Heq; subst. now apply H.
  - intros w1 w2 k Hrun [Heq|[]]. inversion Heq; subst. apply within_Ret.
Qed.

Lemma within_await (R : World -> World -> Prop) {A : Type}
    (ready : World -> bool) (f : World -> World * A) :
  (forall w, running w = true -> ready w = true -> R w (fst (f w))) ->
  within R (await ready f).
Proof.
  intros H. apply within_Step.
  - intros w1 w2 k Hrun Hin. destruct (ready w1) eqn:Hr; [|destruct Hin].
    destruct Hin as [Heq|[]]. inversion Heq; subst. now apply H.
  - intros w1 w2 k Hrun Hin. destruct (ready w1) eqn:Hr; [|destruct Hin].
    destruct Hin as [Heq|[]]. inversion Heq; subst. apply within_Ret.
Qed.

Lemma within_weaken (R R' : World -> World -> Prop) {A : Type} (p : Go A) :
  (forall w1 w2, R w1 w2 -> R' w1 w2) -> within R p -> within R' p.
Proof.
  intros Hsub Hp. induction Hp; constructor; eauto.
Qed.

(** Breaking a body into its actions. *)
Ltac within_body leaf :=
  repeat first
    [ leaf
    | apply within_Ret
    | apply within_Spawn
    | apply within_bind; [|intros]
    | apply within_atomic; intros
    | apply within_await; intros
    | match goal with
      | |- within _ (if ?b then _ else _) => destruct b
      | |- within _ (match ?x with _ => _ end) => destruct x
      end ].

Ltac api_step_done :=
  unfold api_step; simpl;
  repeat match goal with
         | |- context [match ?x with _ => _ end] => destruct x eqn:?; simpl
         end;
  repeat split;
  first
    [ now left
    | now (right; left)
    | now (exists []; rewrite app_nil_r)
    | now eexists
    | idtac ].

Lemma api_step_same (fatal : bool) (w : World) : api_step fatal w w.
Proof. api_step_done. Qed.

Lemma send_queue_within (fatal : bool) (m : Message) :
  0 <= level m <= (if fatal then FATAL else ERROR) ->
  within (api_step fatal) (send_queue m).
Proof.
  intros Hm. apply within_await. intros w Hrun Hready.
  unfold api_step. simpl. repeat split.
  - right. exists m. now split.
  - exists []. now rewrite app_nil_r.
  - now left.
  - now left.
Qed.

Lemma emit_within (fatal : bool) (e : emit) (fr : Frame) :
  within (api_step fatal) (emit_call e fr).
Proof.
  assert (Hlv : forall lvl text, 0 <= lvl <= ERROR ->
            within (api_step fatal) (send_queue (envelope fr text lvl))).
  { intros lvl text H. apply send_queue_within. rewrite envelope_level.
    destruct fatal; unfold FATAL, ERROR in *; lia. }
  destruct e; simpl;
    unfold Error, Errorf, Warn, Warnf, Info, Infof, Debug, Debugf;
    (apply within_bind; [apply within_atomic; intros; apply api_step_same|]);
    intros l; match goal with |- within _ (if ?b then _ else _) => destruct b end;
    try apply within_Ret; apply Hlv; unfold ERROR, WARN, INFO, DEBUG; lia.
Qed.

Lemma Fatal_within (msg : string) (fr : Frame) :
  within (api_step true) (Fatal msg fr).
Proof.
  unfold Fatal.
  apply within_bind; [apply send_queue_within; rewrite envelope_level; unfold FATAL; lia|].
  intros _. apply within_bind.
  - apply within_await. intros w Hrun Hready. unfold api_step. simpl.
    repeat split; [now left | exists []; now rewrite app_nil_r | now left | now right].
  - intros _. apply within_atomic. intros w Hrun. unfold api_step. simpl.
    repeat split; [now left | exists []; now rewrite app_nil_r | | now left].
    right. right. now split.
Qed.

Ltac emit_leaf :=
  idtac;
  match goal with
  | |- within (api_step ?b) (Error ?m ?fr) => apply (emit_within b (EError m) fr)
  | |- within (api_step ?b) (Errorf ?f ?a ?fr) => apply (emit_within b (EErrorf f a) fr)
  | |- within (api_step ?b) (Warn ?m ?fr) => apply (emit_within b (EWarn m) fr)
  | |- within (api_step ?b) (Warnf ?f ?a ?fr) => apply (emit_within b (EWarnf f a) fr)
  | |- within (api_step ?b) (Info ?m ?fr) => apply (emit_within b (EInfo m) fr)
  | |- within (api_step ?b) (Infof ?f ?a ?fr) => apply (emit_within b (EInfof f a) fr)
  | |- within (api_step ?b) (Debug ?m ?fr) => apply (emit_within b (EDebug m) fr)
  | |- within (api_step ?b) (Debugf ?f ?a ?fr) => apply (emit_within b (EDebugf f a) fr)
  end.

Lemma perform_within (fatal : bool) {R : Type} (c : call R) :
  fatal = true \/ fatal_call c = false ->
  within (api_step fatal) (perform c).
Proof.
  intros Hf.
  destruct c; simpl; try emit_leaf.
  - (* SetLogLevel *) apply within_atomic; intros; api_step_done.
  - (* SetPrefix *) apply within_atomic; intros; api_step_done.
  - (* Open *)
    unfold Open, NewFile, os_OpenFile, fmt_Fprintf, lock_Lock, lock_Unlock, modify.
    within_body emit_leaf; api_step_done.
  - (* OpenFd *) apply within_atomic; intros; api_step_done.
  - (* Start *) unfold Start, get. within_body fail; api_step_done.
  - (* Stop *) unfold Stop, get, send_termsig, modify. within_body fail; api_step_done.
  - (* Fatal *)
    destruct Hf as [->|Hf]; [apply Fatal_within | discriminate].
  - (* Fatalf *)
    destruct Hf as [->|Hf]; [apply (Fatal_within (Text.Sprintf format a)) | discriminate].
  - (* Rotate *)
    unfold Rotate, logger_path, os_OpenFile, File_Sync, lock_Lock, lock_Unlock,
      modify, get.
    within_body emit_leaf; api_step_done.
Qed.

Lemma body_within (fatal : bool) (p : program) :
  fatal = true \/ fatal_free p ->
  within (api_step fatal) (body p).
Proof.
  induction p as [|R c next IH]; intros Hf; simpl.
  - apply within_Ret.
  - apply within_bind.
    + apply perform_within. destruct Hf as [Hf|[Hc _]]; [now left | now right].
    + intros r. apply IH. destruct Hf as [Hf|[_ Hn]]; [now left | right; apply Hn].
Qed.

Section RelyFacts.

Variable I : World -> Prop.
Variable G : World -> World -> Prop.
Hypothesis G_refl : forall w, G w w.
Hypothesis G_trans : forall a b c, G a b -> G b c -> G a c.

Lemma ok_stable {A : Type} (p : Go A) (w w' : World) :
  ok I G anything w p -> G w w' -> ok I G anything w' p.
Proof.
  intros Hp. revert w'.
  induction Hp as [w a Hq|w f Hstep Hrest IH|w k Hk IH]; intros w' Hww'.
  - now apply ok_Ret.
  - apply ok_Step; intros w1 w2 k Hw1; eauto.
  - apply ok_Spawn. now apply IH.
Qed.

Lemma ok_bind {A B : Type} (Q : A -> World -> Prop) (R : B -> World -> Prop)
    (p : Go A) (k : A -> Go B) (w : World) :
  ok I G Q w p ->
  (forall a w', Q a w' -> ok I G R w' (k a)) ->
  ok I G R w (bind p k).
Proof.
  intros Hp Hk.
  induction Hp as [w a Hq|w f Hstep Hrest IH|w p' Hp' IH]; simpl.
  - now apply Hk.
  - apply ok_Step.
    + intros w1 w2 k' Hw1 Hi Hrun Hin. apply in_map_iff in Hin.
      destruct Hin as [[w0 p'] [Heq Hin]]. inversion Heq; subst. eauto.
    + intros w1 w2 k' Hw1 Hi Hrun Hin. apply in_map_iff in Hin.
      destruct Hin as [[w0 p'] [Heq Hin]]. inversion Heq; subst. eauto.
  - apply ok_Spawn. exact IH.
Qed.

Lemma ok_post {A : Type} (Q Q' : A -> World -> Prop) (p : Go A) (w : World) :
  (forall a w', Q a w' -> Q' a w') -> ok I G Q w p -> ok I G Q' w p.
Proof.
  intros Hq Hp. induction Hp; [apply ok_Ret | apply ok_Step | apply ok_Spawn]; eauto.
Qed.

Lemma within_ok {A : Type} (Rel : World -> World -> Prop) (p : Go A) :
  (forall w1 w2, Rel w1 w2 -> I w1 -> I w2 /\ G w1 w2) ->
  within Rel p -> forall w, ok I G anything w p.
Proof.
  intros Hrel Hp. induction Hp as [a|f Hstep Hrest IH|k Hk IH]; intros w.
  - now apply ok_Ret.
  - apply ok_Step; intros w1 w2 k Hw1 Hi Hrun Hin; eauto.
  - apply ok_Spawn. apply IH.
Qed.

Lemma ok_atomic {A : Type} (Q : A -> World -> Prop) (w : World)
    (f : World -> World * A) :
  (forall w1, G w w1 -> I w1 -> running w1 = true ->
     I (fst (f w1)) /\ G w1 (fst (f w1)) /\ Q (snd (f w1)) (fst (f w1))) ->
  ok I G Q w (atomic f).
Proof.
  intros H. apply ok_Step.
  - intros w1 w2 k Hw1 Hi Hrun [Heq|[]]. inversion Heq; subst.
    destruct (H w1 Hw1 Hi Hrun) as (? & ? & ?). now split.
  - intros w1 w2 k Hw1 Hi Hrun [Heq|[]]. inversion Heq; subst.
    apply ok_Ret. now destruct (H w1 Hw1 Hi Hrun) as (? & ? & ?).
Qed.

Lemma ok_await {A : Type} (Q : A -> World -> Prop) (w : World)
    (ready : World -> bool) (f : World -> World * A) :
  (forall w1, G w w1 -> I w1 -> running w1 = true -> ready w1 = true ->
     I (fst (f w1)) /\ G w1 (fst (f w1)) /\ Q (snd (f w1)) (fst (f w1))) ->
  ok I G Q w (await ready f).
Proof.
  intros H. apply ok_Step.
  - intros w1 w2 k Hw1 Hi Hrun Hin. destruct (ready w1) eqn:Hr; [|destruct Hin].
    destruct Hin as [Heq|[]]. inversion Heq; subst.
    destruct (H w1 Hw1 Hi Hrun Hr) as (? & ? & ?). now split.
  - intros w1 w2 k Hw1 Hi Hrun Hin. destruct (ready w1) eqn:Hr; [|destruct Hin].
    destruct Hin as [Heq|[]]. inversion Heq; subst.
    apply ok_Ret. now destruct (H w1 Hw1 Hi Hrun Hr) as (? & ? & ?).
Qed.

Hypothesis daemon_ok : forall w, ok I G anything w daemon.
Hypothesis daemon_turn_ok : forall w, ok I G anything w daemon_turn.

Lemma good_stable (g : goroutine) (w w' : World) :
  good I G w g -> G w w' -> good I G w' g.
Proof. destruct g; simpl; apply ok_stable. Qed.

Lemma moves_kept (g : goroutine) (w w' : World) (g' : goroutine) (new : list goroutine) :
  In (w', g', new) (moves g w) ->
  I w -> good I G w g ->
  I w' /\ G w w' /\ good I G w' g' /\ Forall (good I G w') new.
Proof.
  unfold moves. destruct (running w) eqn:Hrun; [|intros []].
  intros Hin Hi Hg.
  destruct g as [p|p]; destruct p as [a|f|k]; simpl in Hg.
  - destruct Hin.
  - apply in_map_iff in Hin. destruct Hin as [[w0 k] [Heq Hin]].
    inversion Heq; subst. inversion Hg; subst.
    match goal with
    | H1 : forall w1 w2 k, G w w1 -> I w1 -> _ -> _ -> I w2 /\ G w1 w2,
      H2 : forall w1 w2 k, G w w1 -> I w1 -> _ -> _ -> ok I G anything w2 k |- _ =>
        destruct (H1 w w' k (G_refl w) Hi Hrun Hin) as [Hi' Hg'];
        pose proof (H2 w w' k (G_refl w) Hi Hrun Hin)
    end.
    simpl. repeat split; auto.
  - destruct Hin as [Heq|[]]. inversion Heq; subst. inversion Hg; subst.
    simpl. repeat split; auto. constructor; [apply daemon_ok | constructor].
  - destruct a; [destruct Hin|]. destruct Hin as [Heq|[]]. inversion Heq; subst.
    simpl. repeat split; auto.
  - apply in_map_iff in Hin. destruct Hin as [[w0 k] [Heq Hin]].
    inversion Heq; subst. inversion Hg; subst.
    match goal with
    | H1 : forall w1 w2 k, G w w1 -> I w1 -> _ -> _ -> I w2 /\ G w1 w2,
      H2 : forall w1 w2 k, G w w1 -> I w1 -> _ -> _ -> ok I G anything w2 k |- _ =>
        destruct (H1 w w' k (G_refl w) Hi Hrun Hin) as [Hi' Hg'];
        pose proof (H2 w w' k (G_refl w) Hi Hrun Hin)
    end.
    simpl. repeat split; auto.
  - destruct Hin as [Heq|[]]. inversion Heq; subst. inversion Hg; subst.
    simpl. repeat split; auto. constructor; [apply daemon_ok | constructor].
Qed.

Lemma sched_kept (ij : nat * nat) (c c' : Config) :
  sched ij c = Some c' -> kept I G c -> kept I G c'.
Proof.
  destruct c as [w gs]. unfold sched, kept. simpl.
  destruct (gs !! fst ij) as [g|] eqn:Hg; [|discriminate].
  destruct (moves g w !! snd ij) as [[[w' g'] new]|] eqn:Hm; [|discriminate].
  intros Heq [Hi Hall]. inversion Heq; subst. simpl.
  apply list_elem_of_lookup_2, list_elem_of_In in Hm.
  pose proof (Forall_lookup_1 _ _ _ _ Hall Hg) as Hgood.
  destruct (moves_kept g w w' g' new Hm Hi Hgood) as (Hi' & Hg' & Hgood' & Hnew).
  split; [exact Hi'|].
  apply Forall_app. split; [|exact Hnew].
  apply Forall_insert; [|exact Hgood'].
  eapply Forall_impl; [exact Hall|].
  intros g0 Hg0. now apply good_stable with w.
Qed.

Lemma run_kept (schedule : list (nat * nat)) (c c' : Config) :
  run schedule c = Some c' -> kept I G c -> kept I G c'.
Proof.
  revert c. induction schedule as [|ij rest IH]; intros c; simpl.
  - intros [= <-]. auto.
  - destruct (sched ij c) as [c1|] eqn:Hs; [|discriminate].
    intros Hrun Hk. apply (IH c1 Hrun). now apply sched_kept with ij c.
Qed.

End RelyFacts.

(* ================================================================== *)
(** * The levels of queued envelopes *)
(* ================================================================== *)

Lemma api_step_levels (w1 w2 : World) :
  api_step true w1 w2 -> levels_in_table w1 ->
  levels_in_table w2 /\ any_step w1 w2.
Proof.
  intros (Hq & _ & Hs & _) [Hall Hst]. split; [|exact Logic.I]. split.
  - destruct Hq as [->|[m [-> Hm]]]; [exact Hall|].
    apply Forall_app. split; [exact Hall|]. now repeat constructor.
  - destruct Hs as [->|[->|[_ ->]]]; [exact Hst | discriminate | discriminate].
Qed.

Lemma daemon_write_within (msg : Message) :
  table_level msg -> within writer_step (daemon_write msg).
Proof.
  intros Hm. destruct (LineFacts.level_string_at_valid (level msg) Hm) as [name Hname].
  unfold daemon_write, daemon_print, lock_Lock, lock_Unlock, send_quit_signal, modify.
  within_body fail; unfold writer_step; simpl; try rewrite Hname;
    repeat match goal with
           | |- context [if ?b then _ else _] => destruct b; simpl
           end; auto.
Qed.

Lemma daemon_turn_levels (w : World) :
  ok levels_in_table any_step anything w daemon_turn.
Proof.
  unfold daemon_turn.
  apply ok_bind with
    (Q := fun r _ => match r with Some m => table_level m | None => True end).
  - apply ok_Step; intros w1 w2 k _ [Hall Hst] Hrun Hin;
      apply in_app_iff in Hin;
      (destruct Hin as [Hin|Hin];
       [destruct (termsig w1) as [|b rest]; [destruct Hin|] |
        destruct (queue w1) as [|m rest] eqn:Hq; [destruct Hin|]]);
      destruct Hin as [Heq|[]]; inversion Heq; subst; simpl.
    + split; [|exact Logic.I]. now split.
    + split; [|exact Logic.I]. split; [|exact Hst]. simpl. now inversion Hall.
    + now apply ok_Ret.
    + apply ok_Ret. now inversion Hall.
  - intros [m|] w' Hm.
    + apply ok_bind with (Q := anything); [|intros; now apply ok_Ret].
      apply within_ok with (Rel := writer_step); [|now apply daemon_write_within].
      intros w1 w2 [Hq Hs] [Hall Hst]. split; [|exact Logic.I]. split.
      * now rewrite Hq.
      * destruct Hs as [->| ->]; [exact Hst | discriminate].
    + now apply ok_Ret.
Qed.

Lemma daemon_levels (w : World) :
  ok levels_in_table any_step anything w daemon.
Proof.
  unfold daemon. apply ok_bind with (Q := anything).
  - apply ok_atomic. intros w1 _ Hi _. simpl. repeat split; apply Hi.
  - intros _ w' _. apply daemon_turn_levels.
Qed.

(** C9.  In every state a process can reach, whatever the application
    calls and however the goroutines are scheduled, every envelope in the
    queue has a level from DEBUG (0) to FATAL (4), so [level_string] has
    a name for it, and the process has not died on an index out of
    range. *)
Theorem queued_levels_index_the_table :
  forall (h : Host) (app : list program) (schedule : list (nat * nat)) (c : Config),
    run schedule (started h (List.map body app)) = Some c ->
    Forall (fun m => DEBUG <= level m <= FATAL) (queue (fst c)) /\
    (forall m, In m (queue (fst c)) ->
       exists name, level_string_at (level m) = Some name) /\
    status (fst c) <> Panicked index_out_of_range.
Proof.
  intros h app schedule c Hrun.
  assert (Hk : kept levels_in_table any_step c).
  { apply (run_kept levels_in_table any_step) with schedule (started h (List.map body app)).
    - intros w. exact Logic.I.
    - intros; exact Logic.I.
    - apply daemon_levels.
    - apply daemon_turn_levels.
    - exact Hrun.
    - split; simpl.
      + split; [constructor | discriminate].
      + constructor; [apply daemon_levels|].
        apply List.Forall_forall. intros g Hg.
        apply in_map_iff in Hg. destruct Hg as [p [<- Hp]].
        apply in_map_iff in Hp. destruct Hp as [prog [<- _]]. simpl.
        apply within_ok with (Rel := api_step true); [apply api_step_levels|].
        apply body_within. now left. }
  destruct Hk as [[Hall Hst] _].
  split; [exact Hall|]. split; [|exact Hst].
  intros m Hm. apply LineFacts.level_string_at_valid.
  rewrite List.Forall_forall in Hall. now apply Hall.
Qed.

(* ================================================================== *)
(** * The flush barrier of Fatal *)
(* ================================================================== *)

Lemma delivered_grows (m : Message) (w1 w2 : World) :
  (exists es, out (host w2) = out (host w1) ++ es) ->
  delivered m w1 -> delivered m w2.
Proof.
  intros [es Hes] (f & stamp & pre & Hin). exists f, stamp, pre.
  rewrite Hes. apply in_or_app. now left.
Qed.

Lemma api_step_barrier (m0 : Message) (w1 w2 : World) :
  api_step false w1 w2 -> barrier m0 w1 ->
  barrier m0 w2 /\ keeps_delivered m0 w1 w2.
Proof.
  intros (Hq & Ho & Hs & Hsig) (Hb1 & Hb2 & Hb3).
  pose proof (delivered_grows m0 w1 w2 Ho) as Hmono.
  split; [|exact Hmono]. repeat split.
  - destruct Hsig as [->|[? _]]; [auto | discriminate].
  - destruct Hs as [->|[->|[? _]]]; [auto | discriminate | discriminate].
  - destruct Hq as [->|[m [-> Hm]]]; [exact Hb3|].
    apply Forall_app. split; [exact Hb3|]. constructor; [|constructor].
    unfold FATAL, ERROR in *. lia.
Qed.

Lemma barrier_update (m0 : Message) (w1 w2 : World) :
  barrier m0 w1 ->
  (exists es, out (host w2) = out (host w1) ++ es) ->
  quit_signal w2 = quit_signal w1 ->
  (status w2 = status w1 \/ exists why, status w2 = Panicked why) ->
  queue w2 = queue w1 ->
  barrier m0 w2 /\ keeps_delivered m0 w1 w2.
Proof.
  intros (Hb1 & Hb2 & Hb3) Ho Hsig Hs Hq.
  pose proof (delivered_grows m0 w1 w2 Ho) as Hmono.
  split; [|exact Hmono]. repeat split.
  - rewrite Hsig. auto.
  - destruct Hs as [->|[why ->]]; [auto | discriminate].
  - now rewrite Hq.
Qed.

Lemma out_same (w1 w2 : World) :
  out (host w2) = out (host w1) -> exists es, out (host w2) = out (host w1) ++ es.
Proof. intros ->. exists []. now rewrite app_nil_r. Qed.

Section Barrier.

Variable m0 : Message.
Hypothesis m0_fatal : level m0 = FATAL.

Lemma keeps_delivered_refl (w : World) : keeps_delivered m0 w w.
Proof. unfold keeps_delivered. auto. Qed.

Lemma keeps_delivered_trans (a b c : World) :
  keeps_delivered m0 a b -> keeps_delivered m0 b c -> keeps_delivered m0 a c.
Proof. unfold keeps_delivered. auto. Qed.

Lemma fatal_send_wait_barrier (w : World) :
  ok (barrier m0) (keeps_delivered m0) anything w (send_queue m0 ;; fatal_wait).
Proof.
  apply ok_bind with (Q := anything).
  - apply ok_await. intros w1 _ (Hb1 & Hb2 & Hb3) _ _. simpl.
    split; [|split; [|exact Logic.I]].
    + repeat split; auto.
      apply Forall_app. split; [exact Hb3|]. now repeat constructor.
    + intros Hd. exact Hd.
  - intros _ w1 _. unfold fatal_wait.
    apply ok_bind with (Q := fun _ w' => delivered m0 w').
    + apply ok_await. intros w2 _ (Hb1 & Hb2 & Hb3) _ Hready. simpl.
      assert (Hd : delivered m0 w2).
      { apply Hb1. destruct (quit_signal w2); [discriminate | congruence]. }
      split; [|split; [|exact Hd]].
      * repeat split; auto.
      * intros _. exact Hd.
    + intros _ w2 Hd. apply ok_atomic.
      intros w3 Hg (Hb1 & Hb2 & Hb3) _. simpl.
      pose proof (Hg Hd) as Hd3.
      split; [|split; [|exact Logic.I]].
      * repeat split; auto.
      * intros _. exact Hd3.
Qed.

Lemma daemon_print_barrier (msg : Message) (w : World) :
  (level msg = FATAL -> msg = m0) ->
  ok (barrier m0) (keeps_delivered m0)
     (fun _ w' => level msg = FATAL -> delivered m0 w')
     w (daemon_print msg).
Proof.
  intros Hmsg. apply ok_atomic. intros w1 _ Hb Hrun1. simpl.
  destruct (level_string_at (level msg)) as [name|] eqn:Hname.
  - match goal with |- barrier _ ?w /\ _ => set (w2 := w) end.
    destruct (barrier_update m0 w1 w2 Hb) as [Hb' Hk];
      [eexists; reflexivity | reflexivity | now left | reflexivity |].
    split; [exact Hb'|]. split; [exact Hk|].
    intros Hf. specialize (Hmsg Hf). subst msg.
    rewrite m0_fatal in Hname. inversion Hname; subst name.
    exists (writer (logger w1)), (Text.Format_stamp (clock (host w1))), (prefix w1).
    subst w2. simpl. apply in_or_app. right. left. reflexivity.
  - match goal with |- barrier _ ?w /\ _ => set (w2 := w) end.
    destruct (barrier_update m0 w1 w2 Hb) as [Hb' Hk];
      [now apply out_same | reflexivity | right; eexists; reflexivity | reflexivity |].
    split; [exact Hb'|]. split; [exact Hk|].
    intros Hf. rewrite Hf in Hname. discriminate Hname.
Qed.

Lemma daemon_write_barrier (msg : Message) (w : World) :
  (level msg = FATAL -> msg = m0) ->
  ok (barrier m0) (keeps_delivered m0) anything w (daemon_write msg).
Proof.
  intros Hmsg. unfold daemon_write.
  apply ok_bind with (Q := anything).
  { apply ok_await. intros w1 _ Hb _ _. simpl.
    match goal with |- barrier _ ?w /\ _ => set (w2 := w) end.
    destruct (barrier_update m0 w1 w2 Hb) as [Hb' Hk];
      [now apply out_same | reflexivity | now left | reflexivity |].
    split; [exact Hb'|]. split; [exact Hk | exact Logic.I]. }
  intros _ w1 _.
  apply ok_bind with
    (Q := fun _ w' => level msg = FATAL -> delivered m0 w').
  { now apply daemon_print_barrier. }
  intros _ w2 Hd.
  apply ok_bind with (Q := anything).
  - destruct (Z.eqb_spec (level msg) FATAL) as [Hf|Hf]; [|now apply ok_Ret].
    apply ok_await. intros w3 Hg (Hb1 & Hb2 & Hb3) Hrun3 _. simpl.
    assert (Hd3 : delivered m0 w3) by (apply Hg; now apply Hd).
    split; [|split; [|exact Logic.I]].
    + repeat split; auto.
    + intros _. exact Hd3.
  - intros _ w3 _. apply ok_atomic. intros w4 _ Hb _. simpl.
    match goal with |- barrier _ ?w /\ _ => set (w5 := w) end.
    destruct (barrier_update m0 w4 w5 Hb) as [Hb' Hk]; subst w5.
    + apply out_same. destruct (lock w4); reflexivity.
    + destruct (lock w4); reflexivity.
    + destruct (lock w4); [now left | right; eexists; reflexivity].
    + destruct (lock w4); reflexivity.
    + split; [exact Hb'|]. split; [exact Hk | exact Logic.I].
Qed.

Lemma daemon_turn_barrier (w : World) :
  ok (barrier m0) (keeps_delivered m0) anything w daemon_turn.
Proof.
  unfold daemon_turn.
  apply ok_bind with
    (Q := fun r _ => match r with Some m => level m = FATAL -> m = m0 | None => True end).
  - apply ok_Step; intros w1 w2 k _ Hb Hrun Hin;
      apply in_app_iff in Hin;
      (destruct Hin as [Hin|Hin];
       [destruct (termsig w1) as [|b rest]; [destruct Hin|] |
        destruct (queue w1) as [|m rest] eqn:Hq; [destruct Hin|]]);
      destruct Hin as [Heq|[]]; inversion Heq; subst; simpl.
    + apply (barrier_update m0 w1 _ Hb);
        [now apply out_same | reflexivity | now left | reflexivity].
    + destruct Hb as (Hb1 & Hb2 & Hb3). split.
      * repeat split; auto. simpl. rewrite Hq in Hb3. now inversion Hb3.
      * intros Hd. exact Hd.
    + now apply ok_Ret.
    + apply ok_Ret. destruct Hb as (_ & _ & Hb3). rewrite Hq in Hb3. now inversion Hb3.
  - intros [m|] w' Hm.
    + apply ok_bind with (Q := anything); [|intros; now apply ok_Ret].
      now apply daemon_write_barrier.
    + now apply ok_Ret.
Qed.

Lemma daemon_barrier (w : World) :
  ok (barrier m0) (keeps_delivered m0) anything w daemon.
Proof.
  unfold daemon. apply ok_bind with (Q := anything).
  - apply ok_atomic. intros w1 _ Hb _. simpl.
    destruct (barrier_update m0 w1 (set_has_daemon true w1) Hb) as [Hb' Hk];
      [now apply out_same | reflexivity | now left | reflexivity |].
    split; [exact Hb'|]. split; [exact Hk | exact Logic.I].
  - intros _ w' _. apply daemon_turn_barrier.
Qed.

(** One goroutine runs a program without [Fatal] and then calls [Fatal]
    with the envelope [m0]; the others never call it.  If the process
    exits with code 1, the line of [m0] has been written. *)
Lemma exit_after_line (h : Host) (before : program) (others : list program)
    (schedule : list (nat * nat)) (c : Config) :
  fatal_free before ->
  Forall fatal_free others ->
  run schedule
      (started h ((body before ;; send_queue m0 ;; fatal_wait) :: List.map body others))
    = Some c ->
  status (fst c) = Exited 1 ->
  delivered m0 (fst c).
Proof.
  intros Hbefore Hothers Hrun Hexit.
  assert (Hk : kept (barrier m0) (keeps_delivered m0) c).
  { apply (run_kept (barrier m0) (keeps_delivered m0)) with schedule
      (started h ((body before ;; send_queue m0 ;; fatal_wait) :: List.map body others)).
    - apply keeps_delivered_refl.
    - apply keeps_delivered_trans.
    - apply daemon_barrier.
    - apply daemon_turn_barrier.
    - exact Hrun.
    - split; simpl.
      + repeat split; try discriminate; try constructor. intros H; now elim H.
      + constructor; [apply daemon_barrier|].
        constructor.
        * simpl. apply ok_bind with (Q := anything).
          -- apply within_ok with (Rel := api_step false);
               [apply api_step_barrier | apply body_within; now right].
          -- intros _ w' _. apply fatal_send_wait_barrier.
        * apply List.Forall_forall. intros g Hg.
          apply in_map_iff in Hg. destruct Hg as [p [<- Hp]].
          apply in_map_iff in Hp. destruct Hp as [prog [<- Hprog]]. simpl.
          apply within_ok with (Rel := api_step false); [apply api_step_barrier|].
          apply body_within. right.
          rewrite List.Forall_forall in Hothers. now apply Hothers. }
  destruct Hk as [(_ & Hb2 & _) _]. now apply Hb2.
Qed.

End Barrier.

Lemma exec_fatal_wait_empty (w : World) :
  running w = true -> quit_signal w = [] ->
  exec fatal_wait w = [Blocked w fatal_wait []].
Proof. intros Hrun Hq. open_world w. reflexivity. Qed.

Lemma exec_fatal_wait_signal (w : World) (b : ascii) (rest : list ascii) :
  running w = true -> quit_signal w = b :: rest ->
  exec fatal_wait w = [Halted (set_status (Exited 1) (set_quit_signal rest w)) []].
Proof. intros Hrun Hq. open_world w. reflexivity. Qed.

Lemma exec_Fatal_send (msg : string) (fr : Frame) (w : World) :
  running w = true -> quit_signal w = [] ->
  (length (queue w) < queue_cap)%nat ->
  exec (Fatal msg fr) w =
    [Blocked (set_queue (queue w ++ [envelope fr msg FATAL]) w) fatal_wait []].
Proof.
  intros Hrun Hq Hlen. apply Nat.ltb_lt in Hlen.
  open_world w. rewrite Hlen. reflexivity.
Qed.

(* ================================================================== *)
(** * The theorems at work on a sample process *)
(* ================================================================== *)

Lemma emit_enqueues_iff_at_or_above_threshold_witness :
  running (boot sample_host) = true /\
  exec (emit_call (EDebug "x") sample_frame) (boot sample_host) =
    [Done (boot sample_host) tt []] /\
  exec (emit_call (EInfo "y") sample_frame) (boot sample_host) =
    [Done (set_queue [envelope sample_frame "y" INFO] (boot sample_host)) tt []].
Proof.
  split; [reflexivity|]. split.
  - apply (emit_enqueues_iff_at_or_above_threshold
             (EDebug "x") sample_frame (boot sample_host) eq_refl).
    reflexivity.
  - apply (emit_enqueues_iff_at_or_above_threshold
             (EInfo "y") sample_frame (boot sample_host) eq_refl);
      [discriminate | unfold queue_cap; simpl; lia].
Defined.

Lemma daemon_line_format_witness :
  running (boot sample_host) = true /\
  lock (boot sample_host) = false /\
  quit_signal (boot sample_host) = [] /\
  0 <= level (envelope sample_frame "y" INFO) <= 4 /\
  exists name : string,
    exec (daemon_write (envelope sample_frame "y" INFO)) (boot sample_host) =
      [Done (printed (envelope sample_frame "y" INFO) name (boot sample_host)) tt []] /\
    out (host (printed (envelope sample_frame "y" INFO) name (boot sample_host))) =
      [(os_Stderr, "[ INFO @ Oct 31 05:14:07.012][main.go:42] y" +:+ LF)].
Proof.
  assert (Hl : 0 <= level (envelope sample_frame "y" INFO) <= 4)
    by (rewrite envelope_level; unfold INFO; lia).
  repeat (split; [first [reflexivity | exact Hl]|]).
  destruct (daemon_line_format (envelope sample_frame "y" INFO) (boot sample_host)
              eq_refl eq_refl eq_refl Hl) as (name & Hname & Hexec & Hout & _).
  exists name. split; [exact Hexec|].
  rewrite Hout. inversion Hname. reflexivity.
Defined.

Lemma Open_failure_and_success_witness :
  running (boot sample_host) = true /\
  lock (boot sample_host) = false /\
  (exists w, exec (Open "/var/log/app.log" sample_here) (boot sample_host) =
               [Done w None []] /\
             logger w = {| writer := os_Fd 3; path := "/var/log/app.log" |}) /\
  (exists w, exec (Open "/var/log/app.log" sample_here) (boot readonly_host) =
               [Done w (Some "permission denied") []] /\
             logger w = logger (boot readonly_host)).
Proof.
  split; [reflexivity|]. split; [reflexivity|]. split.
  - pose proof (Open_failure_and_success "/var/log/app.log" sample_here
                  (boot sample_host) eq_refl eq_refl) as H.
    cbv zeta in H. destruct H as [_ H].
    destruct (H eq_refl) as (H1 & _).
    eexists. split.
    + apply H1; [discriminate | unfold queue_cap; simpl; lia].
    + reflexivity.
  - pose proof (Open_failure_and_success "/var/log/app.log" sample_here
                  (boot readonly_host) eq_refl eq_refl) as H.
    cbv zeta in H. destruct H as [H _].
    destruct (H "permission denied" eq_refl) as (H1 & _).
    eexists. split; [exact H1 | reflexivity].
Defined.

Lemma Rotate_with_path_witness :
  running (sample_logging sample_host) = true /\
  lock (sample_logging sample_host) = false /\
  path (logger (sample_logging sample_host)) <> "" /\
  (exists w, exec (Rotate sample_here) (sample_logging sample_host) =
               [Done w None []] /\
             logger w = {| writer := os_Fd 3; path := "/var/log/app.log" |}) /\
  (exists w, exec (Rotate sample_here) (sample_logging readonly_host) =
               [Done w (Some "permission denied") []] /\
             logger w = logger (sample_logging readonly_host)).
Proof.
  assert (Hp : forall h, path (logger (sample_logging h)) <> "") by (intros h; discriminate).
  split; [reflexivity|]. split; [reflexivity|]. split; [apply Hp|]. split.
  - pose proof (Rotate_with_path sample_here (sample_logging sample_host)
                  eq_refl eq_refl (Hp sample_host)) as H.
    cbv zeta in H. destruct H as [_ H].
    destruct (H eq_refl) as (H1 & _).
    eexists. split.
    + apply H1; [discriminate | unfold queue_cap; simpl; lia].
    + reflexivity.
  - pose proof (Rotate_with_path sample_here (sample_logging readonly_host)
                  eq_refl eq_refl (Hp readonly_host)) as H.
    cbv zeta in H. destruct H as [H _].
    destruct (H "permission denied" eq_refl) as (H1 & _).
    eexists. split.
    + apply H1; [discriminate | unfold queue_cap; simpl; lia].
    + reflexivity.
Defined.

Lemma Rotate_without_path_is_a_noop_witness :
  running (boot sample_host) = true /\
  lock (boot sample_host) = false /\
  path (logger (boot sample_host)) = "" /\
  exec (Rotate sample_here) (boot sample_host) =
    [Done (synced_world (boot sample_host)) None []].
Proof.
  repeat (split; [reflexivity|]).
  apply (Rotate_without_path_is_a_noop sample_here (boot sample_host)
           eq_refl eq_refl eq_refl).
Defined.

Lemma queued_levels_index_the_table_witness :
  run [(1, 0); (1, 0); (1, 0)]%nat (started sample_host [body sample_app]) =
    Some (set_queue [envelope sample_frame "y" INFO; envelope sample_frame "z" FATAL]
            (boot sample_host),
          [Daemon daemon; Body (fatal_wait ;; Ret tt)]) /\
  Forall (fun m => DEBUG <= level m <= FATAL)
    [envelope sample_frame "y" INFO; envelope sample_frame "z" FATAL].
Proof.
  assert (Hrun :
    run [(1, 0); (1, 0); (1, 0)]%nat (started sample_host (List.map body [sample_app])) =
    Some (set_queue [envelope sample_frame "y" INFO; envelope sample_frame "z" FATAL]
            (boot sample_host),
          [Daemon daemon; Body (fatal_wait ;; Ret tt)])) by reflexivity.
  split; [exact Hrun|].
  apply (queued_levels_index_the_table sample_host [sample_app] _ _ Hrun).
Defined.

Lemma SetLogLevel_INVALID_lets_every_level_through_witness :
  running (boot sample_host) = true /\
  exec (SetLogLevel INVALID ;; emit_call (EDebug "x") sample_frame) (boot sample_host) =
    [Done (set_queue [envelope sample_frame "x" DEBUG]
             (set_logLevel INVALID (boot sample_host))) tt []].
Proof.
  split; [reflexivity|].
  apply (SetLogLevel_INVALID_lets_every_level_through INVALID (boot sample_host) eq_refl).
  unfold queue_cap; simpl; lia.
Defined.

(* ================================================================== *)
(** * More about the text helpers *)
(* ================================================================== *)

Lemma has_sep_app (a b : string) :
  Text.has_sep (a +:+ b) = Text.has_sep a || Text.has_sep b.
Proof.
  induction a as [|c a IH]; [reflexivity|].
  change (String c a +:+ b) with (String c (a +:+ b)). simpl.
  rewrite IH. now rewrite orb_assoc.
Qed.

(** X1.  [filename] keeps what follows the last slash: a path without a
    slash is returned whole, and a base name behind any directory prefix
    is returned alone (so a path ending in a slash gives the empty
    string). *)
Theorem filename_is_text_after_last_slash :
  forall (dir base : string),
    Text.has_sep base = false ->
    filename base = base /\
    filename (dir +:+ "/" +:+ base) = base.
Proof.
  intros dir base Hbase. unfold filename. split.
  - destruct base as [|c rest]; simpl in *; [reflexivity|].
    apply orb_false_iff in Hbase. destruct Hbase as [Hc Hrest].
    now rewrite Hrest, Hc.
  - induction dir as [|c dir IH].
    + change ("" +:+ "/" +:+ base) with (String "/" base). simpl.
      now rewrite Hbase.
    + change (String c dir +:+ "/" +:+ base) with (String c (dir +:+ "/" +:+ base)).
      simpl. rewrite has_sep_app.
      change (Text.has_sep ("/" +:+ base)) with (true || Text.has_sep base).
      simpl. rewrite orb_true_r. exact IH.
Qed.

Lemma filename_is_text_after_last_slash_witness :
  Text.has_sep "main.go" = false /\
  filename "main.go" = "main.go" /\
  filename ("/src/app" +:+ "/" +:+ "main.go") = "main.go".
Proof.
  split; [reflexivity|].
  apply (filename_is_text_after_last_slash "/src/app" "main.go"). reflexivity.
Defined.

(** X2.  Round trip through the name table: [ToLevel] (with ASCII
    upper-casing) of the name of a level of the table is that level. *)
Theorem ToLevel_of_level_name :
  forall (l : Level) (name : string),
    level_string_at l = Some name ->
    ToLevel Text.ascii_ToUpper name = l.
Proof.
  intros l name. unfold level_string_at.
  destruct (Z.ltb_spec l 0) as [|Hl]; [discriminate|].
  destruct (Z.to_nat l) as [|[|[|[|[|k]]]]] eqn:Hk; simpl; intros H;
    inversion H; subst; vm_compute; try lia.
  all: destruct l; try lia; try (vm_compute in Hk; discriminate).
Qed.

Lemma ToLevel_of_level_name_witness :
  level_string_at ERROR = Some "ERROR" /\
  ToLevel Text.ascii_ToUpper "ERROR" = ERROR.
Proof.
  split; [reflexivity|].
  apply (ToLevel_of_level_name ERROR "ERROR"). reflexivity.
Defined.
Lemma daemon_turn_prints (w : World) (msg : Message) (more : list Message)
    (name : string) :
  running w = true ->
  lock w = false ->
  termsig w = [] ->
  queue w = msg :: more ->
  (level msg = FATAL -> quit_signal w = []) ->
  level_string_at (level msg) = Some name ->
  exec daemon_turn w = [Done (printed msg name (set_queue more w)) false []].
Proof.
  intros Hrun Hlock Hsig Hq Hquit Hname.
  unfold printed, Line.spec_line.
  destruct msg as [[cf cl] text lvl].
  destruct (Z.eqb_spec lvl FATAL) as [Hf|Hf].
  - specialize (Hquit Hf). simpl in Hname. subst lvl.
    inversion Hname; subst name. open_world w. reflexivity.
  - clear Hquit. apply Z.eqb_neq in Hf. open_world w.
    unfold daemon_write, daemon_print. simpl.
    rewrite Hname. simpl. rewrite Hf. reflexivity.
Qed.

(* ================================================================== *)
(** * More about Stop and the daemon's loop *)
(* ================================================================== *)

(** X3.  [Stop] in a running process.  With the flag set and the stop
    channel empty it sends one signal and clears the flag; with the flag
    clear it sends nothing; so a second [Stop] right after the first adds
    no signal.  With the flag set and a signal still waiting in the
    channel, [Stop] blocks, the world unchanged. *)
Theorem Stop_signals_once :
  forall w : World,
    running w = true ->
    (has_daemon w = true -> termsig w = [] ->
       exec Stop w = [Done (set_has_daemon false (set_termsig [zero] w)) tt []] /\
       exec (Stop ;; Stop) w =
         [Done (set_has_daemon false (set_termsig [zero] w)) tt []]) /\
    (has_daemon w = false ->
       exec Stop w = [Done w tt []]) /\
    (has_daemon w = true -> termsig w <> [] ->
       exists rest, exec Stop w = [Blocked w rest []]).
Proof.
  intros w Hrun. split; [|split].
  - intros Hflag Hsig. open_world w. split; reflexivity.
  - intros Hflag. open_world w. reflexivity.
  - intros Hflag Hsig.
    destruct (termsig w) as [|b rest] eqn:Hts; [congruence|]. clear Hsig.
    open_world w. eexists. reflexivity.
Qed.

Lemma Stop_signals_once_witness :
  running (set_has_daemon true (boot sample_host)) = true /\
  has_daemon (set_has_daemon true (boot sample_host)) = true /\
  termsig (set_has_daemon true (boot sample_host)) = [] /\
  exec (Stop ;; Stop) (set_has_daemon true (boot sample_host)) =
    [Done (set_termsig [zero] (boot sample_host)) tt []].
Proof.
  repeat (split; [reflexivity|]).
  apply (Stop_signals_once (set_has_daemon true (boot sample_host)) eq_refl);
    reflexivity.
Defined.

(** X4.  One turn of the daemon's loop in a running process.  With
    nothing queued and no stop signal it waits, whatever else the world
    holds: an empty queue never ends the daemon.  With a stop signal and
    nothing queued it takes the signal and returns.  With both a stop
    signal and a message ready, either case of the [select] may be taken:
    the daemon returns leaving the message queued, or prints the message
    and goes on. *)
Theorem daemon_turn_cases :
  forall w : World,
    running w = true ->
    (termsig w = [] -> queue w = [] ->
       exec daemon_turn w = [Blocked w daemon_turn []]) /\
    (forall b rest, termsig w = b :: rest -> queue w = [] ->
       exec daemon_turn w = [Done (set_termsig rest w) true []]) /\
    (forall b rest msg more name,
       termsig w = b :: rest -> queue w = msg :: more ->
       lock w = false -> quit_signal w = [] ->
       level_string_at (level msg) = Some name ->
       exec daemon_turn w =
         [Done (set_termsig rest w) true [];
          Done (printed msg name (set_queue more w)) false []]).
Proof.
  intros w Hrun. split; [|split].
  - intros Hsig Hq. open_world w. reflexivity.
  - intros b rest Hsig Hq. open_world w. reflexivity.
  - intros b rest msg more name Hsig Hq Hlock Hquit Hname.
    unfold printed, Line.spec_line.
    destruct msg as [[cf cl] text lvl].
    open_world w. unfold daemon_write, daemon_print. simpl.
    rewrite Hname. simpl.
    destruct (lvl =? FATAL); reflexivity.
Qed.

Lemma daemon_turn_cases_witness :
  running (set_termsig [zero] (boot sample_host)) = true /\
  exec daemon_turn (set_termsig [zero] (boot sample_host)) =
    [Done (boot sample_host) true []].
Proof.
  split; [reflexivity|].
  apply (proj1 (proj2 (daemon_turn_cases (set_termsig [zero] (boot sample_host))
                         eq_refl)) zero []);
    reflexivity.
Defined.

(** X5.  First in, first out.  With two messages at the front of the
    queue (levels below FATAL, no stop signal, mutex free), the next two
    turns of the daemon write the line of the older one and then the line
    of the newer one, and leave the rest of the queue as it was. *)
Theorem daemon_writes_in_queue_order :
  forall (w : World) (m1 m2 : Message) (more : list Message),
    running w = true ->
    lock w = false ->
    termsig w = [] ->
    queue w = m1 :: m2 :: more ->
    0 <= level m1 < FATAL ->
    0 <= level m2 < FATAL ->
    exists (n1 n2 : string) (w1 w2 : World),
      level_string_at (level m1) = Some n1 /\
      level_string_at (level m2) = Some n2 /\
      exec daemon_turn w = [Done w1 false []] /\
      exec daemon_turn w1 = [Done w2 false []] /\
      queue w2 = more /\
      out (host w2) =
        out (host w) ++
        [(writer (logger w),
          Line.spec_line n1 (Text.Format_stamp (clock (host w)))
            (caller_filename (caller m1)) (caller_line (caller m1))
            (prefix w) (message m1));
         (writer (logger w),
          Line.spec_line n2 (Text.Format_stamp (clock (host w)))
            (caller_filename (caller m2)) (caller_line (caller m2))
            (prefix w) (message m2))].
Proof.
  intros w m1 m2 more Hrun Hlock Hsig Hq H1 H2.
  destruct (LineFacts.level_string_at_valid (level m1)) as [n1 Hn1];
    [unfold FATAL in *; lia|].
  destruct (LineFacts.level_string_at_valid (level m2)) as [n2 Hn2];
    [unfold FATAL in *; lia|].
  assert (Hf1 : (level m1 =? FATAL) = false) by (apply Z.eqb_neq; lia).
  assert (Hf2 : (level m2 =? FATAL) = false) by (apply Z.eqb_neq; lia).
  set (w1 := printed m1 n1 (set_queue (m2 :: more) w)).
  set (w2 := printed m2 n2 (set_queue more w1)).
  assert (E1 : w1 = set_host (host_write (writer (logger w))
                 (Line.spec_line n1 (Text.Format_stamp (clock (host w)))
                    (caller_filename (caller m1)) (caller_line (caller m1))
                    (prefix w) (message m1)) (host w)) (set_queue (m2 :: more) w)).
  { unfold w1, printed. rewrite Hf1. reflexivity. }
  exists n1, n2, w1, w2.
  split; [exact Hn1|]. split; [exact Hn2|].
  split; [|split; [|split]].
  - apply daemon_turn_prints; auto. intros Hf. lia.
  - apply (daemon_turn_prints w1 m2 more n2);
      [rewrite E1; exact Hrun | rewrite E1; exact Hlock | rewrite E1; exact Hsig
      | rewrite E1; reflexivity | intros Hf; lia | exact Hn2].
  - unfold w2, printed. rewrite Hf2. reflexivity.
  - unfold w2, printed. rewrite Hf2, E1. simpl.
    rewrite <- app_assoc. reflexivity.
Qed.

Lemma daemon_writes_in_queue_order_witness :
  exists w1 w2 : World,
    exec daemon_turn
      (set_queue [envelope sample_frame "A" INFO; envelope sample_frame "B" WARN]
         (boot sample_host)) = [Done w1 false []] /\
    exec daemon_turn w1 = [Done w2 false []] /\
    out (host w2) =
      [(os_Stderr, "[ INFO @ Oct 31 05:14:07.012][main.go:42] A" +:+ LF);
       (os_Stderr, "[ WARN @ Oct 31 05:14:07.012][main.go:42] B" +:+ LF)].
Proof.
  destruct (daemon_writes_in_queue_order
              (set_queue [envelope sample_frame "A" INFO; envelope sample_frame "B" WARN]
                 (boot sample_host))
              (envelope sample_frame "A" INFO) (envelope sample_frame "B" WARN) []
              eq_refl eq_refl eq_refl eq_refl)
    as (n1 & n2 & w1 & w2 & Hn1 & Hn2 & Hexec1 & Hexec2 & _ & Hout).
  - rewrite envelope_level. unfold INFO, FATAL. lia.
  - rewrite envelope_level. unfold WARN, FATAL. lia.
  - exists w1, w2. split; [exact Hexec1|]. split; [exact Hexec2|].
    rewrite Hout. inversion Hn1. inversion Hn2. reflexivity.
Defined.

(* ================================================================== *)
(** * What is read when: emit time and write time *)
(* ================================================================== *)

(** X6.  The threshold is read when a message is emitted; the prefix
    and the destination are read when the daemon writes it.  A message
    emitted at or above the threshold, followed by [SetPrefix],
    [OpenFd] and a raise of the threshold above the message's level
    before the daemon runs, is still written, with the new prefix, to the
    new stream. *)
Theorem line_uses_prefix_and_stream_at_write_time :
  forall (e : emit) (fr : Frame) (pre : string) (fd : File) (l : Level) (w : World),
    running w = true ->
    lock w = false ->
    termsig w = [] ->
    queue w = [] ->
    logLevel w <= emit_level e ->
    exists (name : string) (w1 w2 : World),
      level_string_at (emit_level e) = Some name /\
      exec (emit_call e fr ;; SetPrefix pre ;; OpenFd fd ;; SetLogLevel l) w =
        [Done w1 tt []] /\
      exec daemon_turn w1 = [Done w2 false []] /\
      out (host w2) =
        out (host w) ++
        [(fd,
          Line.spec_line name (Text.Format_stamp (clock (host w)))
            (caller_filename (caller (envelope fr (emit_text e) (emit_level e))))
            (caller_line (caller (envelope fr (emit_text e) (emit_level e))))
            pre (emit_text e))].
Proof.
  intros e fr pre fd l w Hrun Hlock Hsig Hq Hle.
  set (m := envelope fr (emit_text e) (emit_level e)).
  set (w1 := set_logLevel l (set_logger (NewFd fd) (set_prefix pre (set_queue [m] w)))).
  assert (Hlm : level m = emit_level e) by apply envelope_level.
  assert (Hname : exists name, level_string_at (emit_level e) = Some name).
  { destruct e; simpl; eauto. }
  destruct Hname as [name Hname].
  exists name, w1, (printed m name (set_queue [] w1)).
  split; [exact Hname|].
  assert (Hgt : (logLevel w >? emit_level e) = false).
  { destruct (Z.gtb_spec (logLevel w) (emit_level e)); [lia | reflexivity]. }
  assert (Hnf : (level m =? FATAL) = false).
  { rewrite Hlm. destruct e; reflexivity. }
  split; [|split].
  - subst w1 m. clear Hname Hnf Hlm. open_world w.
    destruct e; simpl in *; rewrite Hgt; reflexivity.
  - apply daemon_turn_prints; try reflexivity; try assumption.
    + intros Hf. rewrite Hf in Hnf. discriminate.
    + now rewrite Hlm.
  - unfold printed. rewrite Hnf. subst w1. simpl.
    unfold m at 3. rewrite envelope_message. reflexivity.
Qed.

Lemma line_uses_prefix_and_stream_at_write_time_witness :
  exists w1 w2 : World,
    exec (emit_call (EInfo "y") sample_frame ;; SetPrefix "app: " ;;
          OpenFd (os_Fd 7) ;; SetLogLevel FATAL) (boot sample_host) =
      [Done w1 tt []] /\
    exec daemon_turn w1 = [Done w2 false []] /\
    out (host w2) =
      [(os_Fd 7, "[ INFO @ Oct 31 05:14:07.012][main.go:42] app: y" +:+ LF)].
Proof.
  destruct (line_uses_prefix_and_stream_at_write_time
              (EInfo "y") sample_frame "app: " (os_Fd 7) FATAL (boot sample_host)
              eq_refl eq_refl eq_refl eq_refl)
    as (name & w1 & w2 & Hname & H1 & H2 & Hout).
  - discriminate.
  - exists w1, w2. split; [exact H1|]. split; [exact H2|].
    rewrite Hout. inversion Hname. reflexivity.
Defined.

(* ================================================================== *)
(** * The mutex *)
(* ================================================================== *)

(** X7.  While the mutex is held, [Open], [Rotate] and the daemon's
    write wait, the world unchanged; [SetPrefix], [OpenFd] and
    [SetLogLevel] do not take the mutex and change the prefix, the
    destination and the threshold at once. *)
Theorem mutex_guards_Open_Rotate_and_the_write_only :
  forall (w : World) (f pre : string) (here : Z -> Frame) (msg : Message)
         (fd : File) (l : Level),
    running w = true ->
    lock w = true ->
    exec (Open f here) w = [Blocked w (Open f here) []] /\
    exec (Rotate here) w = [Blocked w (Rotate here) []] /\
    exec (daemon_write msg) w = [Blocked w (daemon_write msg) []] /\
    exec (SetPrefix pre) w = [Done (set_prefix pre w) tt []] /\
    exec (OpenFd fd) w = [Done (set_logger (NewFd fd) w) tt []] /\
    exec (SetLogLevel l) w = [Done (set_logLevel l w) tt []].
Proof.
  intros w f pre here msg fd l Hrun Hlock.
  open_world w. repeat split; reflexivity.
Qed.

Lemma mutex_guards_Open_Rotate_and_the_write_only_witness :
  running (set_lock true (boot sample_host)) = true /\
  lock (set_lock true (boot sample_host)) = true /\
  exec (Open "/var/log/app.log" sample_here) (set_lock true (boot sample_host)) =
    [Blocked (set_lock true (boot sample_host))
       (Open "/var/log/app.log" sample_here) []].
Proof.
  split; [reflexivity|]. split; [reflexivity|].
  apply (mutex_guards_Open_Rotate_and_the_write_only
           (set_lock true (boot sample_host)) "/var/log/app.log" "" sample_here
           (envelope sample_frame "y" INFO) os_Stderr INFO eq_refl eq_refl).
Defined.

(** X8.  [Open] and [Rotate] log while they hold the mutex.  When the
    queue is full and the threshold lets the message through, they block
    in the send with the mutex held (and, for [Open], the destination
    already replaced); the daemon's write of a message it has taken
    waits for that mutex. *)
Theorem Open_and_Rotate_block_on_a_full_queue_holding_the_mutex :
  forall (f : string) (here : Z -> Frame) (msg : Message) (w : World),
    running w = true ->
    lock w = false ->
    (queue_cap <= length (queue w))%nat ->
    logLevel w <= INFO ->
    (openfile (host w) f log_flags mode_0660 = None ->
       exists w' rest,
         exec (Open f here) w = [Blocked w' rest []] /\
         lock w' = true /\
         queue w' = queue w /\
         logger w' = {| writer := os_Fd (next_fd (host w)); path := f |} /\
         exec (daemon_write msg) w' = [Blocked w' (daemon_write msg) []]) /\
    (path (logger w) <> "" ->
       exists w' rest,
         exec (Rotate here) w = [Blocked w' rest []] /\
         lock w' = true /\
         queue w' = queue w /\
         logger w' = logger w /\
         exec (daemon_write msg) w' = [Blocked w' (daemon_write msg) []]).
Proof.
  intros f here msg w Hrun Hlock Hfull Hle.
  apply Nat.ltb_ge in Hfull. unfold log_flags.
  assert (Hi : (logLevel w >? INFO) = false).
  { destruct (Z.gtb_spec (logLevel w) INFO); [lia | reflexivity]. }
  assert (He : (logLevel w >? ERROR) = false).
  { destruct (Z.gtb_spec (logLevel w) ERROR); [unfold INFO, ERROR in *; lia | reflexivity]. }
  destruct w as [lv [wr pa] pre q qs ts lk hd [opn nfd clk o sy] st].
  apply running_status in Hrun. simpl in *. subst.
  split.
  - intros Hopen. eexists. eexists.
    split; [simpl; rewrite Hopen; simpl; rewrite Hi; simpl; rewrite Hfull; reflexivity|].
    repeat split; reflexivity.
  - intros Hpath.
    assert (Hne : String.eqb pa "" = false) by now apply String.eqb_neq.
    destruct (opn pa (Z.lor (Z.lor O_WRONLY O_APPEND) O_CREATE) mode_0660) as [err|] eqn:Hopen.
    + eexists. eexists.
      split; [simpl; rewrite Hne; simpl; rewrite Hopen; simpl; rewrite He; simpl;
              rewrite Hfull; reflexivity|].
      repeat split; reflexivity.
    + eexists. eexists.
      split; [simpl; rewrite Hne; simpl; rewrite Hopen; simpl; rewrite Hi; simpl;
              rewrite Hfull; reflexivity|].
      repeat split; reflexivity.
Qed.

(* ================================================================== *)
(** * More invariants of the pool *)
(* ================================================================== *)

Ltac queue_step_done :=
  unfold queue_step; simpl;
  repeat match goal with
         | |- context [match ?x with _ => _ end] => destruct x eqn:?; simpl
         end;
  first
    [ now left
    | right; left; eexists; split; [reflexivity | now apply Nat.ltb_lt]
    | idtac ].

Lemma daemon_select_within (R : World -> World -> Prop) :
  (forall w b rest, running w = true -> termsig w = b :: rest ->
     R w (set_termsig rest w)) ->
  (forall w m rest, running w = true -> queue w = m :: rest ->
     R w (set_queue rest w)) ->
  within R daemon_select.
Proof.
  intros Hsig Hq. apply within_Step.
  - intros w1 w2 k Hrun Hin. apply in_app_iff in Hin.
    destruct Hin as [Hin|Hin].
    + destruct (termsig w1) as [|b rest] eqn:Hts; [destruct Hin|].
      destruct Hin as [Heq|[]]. inversion Heq; subst. eauto.
    + destruct (queue w1) as [|m rest] eqn:Hqu; [destruct Hin|].
      destruct Hin as [Heq|[]]. inversion Heq; subst. eauto.
  - intros w1 w2 k Hrun Hin. apply in_app_iff in Hin.
    destruct Hin as [Hin|Hin].
    + destruct (termsig w1) as [|b rest]; [destruct Hin|].
      destruct Hin as [Heq|[]]. inversion Heq; subst. apply within_Ret.
    + destruct (queue w1) as [|m rest]; [destruct Hin|].
      destruct Hin as [Heq|[]]. inversion Heq; subst. apply within_Ret.
Qed.

Lemma daemon_within (R : World -> World -> Prop) :
  (forall w b rest, running w = true -> termsig w = b :: rest ->
     R w (set_termsig rest w)) ->
  (forall w m rest, running w = true -> queue w = m :: rest ->
     R w (set_queue rest w)) ->
  (forall msg, within R (daemon_write msg)) ->
  (forall w, running w = true -> R w (set_has_daemon true w)) ->
  within R daemon_turn /\ within R daemon.
Proof.
  intros Hsig Hq Hwrite Hflag.
  assert (Hturn : within R daemon_turn).
  { unfold daemon_turn. apply within_bind.
    - now apply daemon_select_within.
    - intros [msg|]; [|apply within_Ret].
      apply within_bind; [apply Hwrite | intros; apply within_Ret]. }
  split; [exact Hturn|].
  unfold daemon. apply within_bind; [|intros; exact Hturn].
  apply within_atomic. exact Hflag.
Qed.

Lemma daemon_write_queue_step (msg : Message) :
  within queue_step (daemon_write msg).
Proof.
  unfold daemon_write, daemon_print, lock_Lock, lock_Unlock, send_quit_signal, modify.
  within_body fail; queue_step_done.
Qed.

Lemma emit_queue_step (e : emit) (fr : Frame) :
  within queue_step (emit_call e fr).
Proof.
  destruct e; simpl;
    unfold Error, Errorf, Warn, Warnf, Info, Infof, Debug, Debugf, send_queue, get;
    within_body fail; queue_step_done.
Qed.

Ltac emit_queue_leaf :=
  idtac;
  match goal with
  | |- within queue_step (Error ?m ?fr) => apply (emit_queue_step (EError m) fr)
  | |- within queue_step (Errorf ?f ?a ?fr) => apply (emit_queue_step (EErrorf f a) fr)
  | |- within queue_step (Warn ?m ?fr) => apply (emit_queue_step (EWarn m) fr)
  | |- within queue_step (Warnf ?f ?a ?fr) => apply (emit_queue_step (EWarnf f a) fr)
  | |- within queue_step (Info ?m ?fr) => apply (emit_queue_step (EInfo m) fr)
  | |- within queue_step (Infof ?f ?a ?fr) => apply (emit_queue_step (EInfof f a) fr)
  | |- within queue_step (Debug ?m ?fr) => apply (emit_queue_step (EDebug m) fr)
  | |- within queue_step (Debugf ?f ?a ?fr) => apply (emit_queue_step (EDebugf f a) fr)
  end.

Lemma perform_queue_step {R : Type} (c : call R) :
  within queue_step (perform c).
Proof.
  destruct c; simpl; try emit_queue_leaf.
  - apply within_atomic; intros; queue_step_done.
  - apply within_atomic; intros; queue_step_done.
  - unfold Open, NewFile, os_OpenFile, fmt_Fprintf, lock_Lock, lock_Unlock, modify.
    within_body emit_queue_leaf; queue_step_done.
  - apply within_atomic; intros; queue_step_done.
  - unfold Start, get. within_body fail; queue_step_done.
  - unfold Stop, get, send_termsig, modify. within_body fail; queue_step_done.
  - unfold Fatal, send_queue, recv_quit_signal, os_Exit.
    within_body fail; queue_step_done.
  - unfold Fatalf, send_queue, recv_quit_signal, os_Exit.
    within_body fail; queue_step_done.
  - unfold Rotate, logger_path, os_OpenFile, File_Sync, lock_Lock, lock_Unlock,
      modify, get.
    within_body emit_queue_leaf; queue_step_done.
Qed.

Lemma body_queue_step (p : program) : within queue_step (body p).
Proof.
  induction p as [|R c next IH]; simpl.
  - apply within_Ret.
  - apply within_bind; [apply perform_queue_step | exact IH].
Qed.

Lemma queue_step_cap (w1 w2 : World) :
  queue_step w1 w2 -> queue_within_cap w1 ->
  queue_within_cap w2 /\ any_step w1 w2.
Proof.
  unfold queue_within_cap.
  intros [Hq|[[m [Hq Hlen]]|[m Hq]]] Hcap; (split; [|exact Logic.I]).
  - now rewrite Hq.
  - rewrite Hq, length_app. simpl. lia.
  - rewrite Hq in Hcap. simpl in Hcap. lia.
Qed.

(** X9.  Backpressure bounds the queue: in every state a process can
    reach, whatever the application calls and however the goroutines are
    scheduled, the queue holds at most 32 envelopes. *)
Theorem queue_never_exceeds_its_capacity :
  forall (h : Host) (app : list program) (schedule : list (nat * nat)) (c : Config),
    run schedule (started h (List.map body app)) = Some c ->
    (length (queue (fst c)) <= 32)%nat.
Proof.
  intros h app schedule c Hrun.
  destruct (daemon_within queue_step) as [Hturn Hdaemon].
  { intros; now left. }
  { intros w m rest _ Hq. right. right. exists m. exact Hq. }
  { apply daemon_write_queue_step. }
  { intros; now left. }
  assert (Hk : kept queue_within_cap any_step c).
  { apply (run_kept queue_within_cap any_step) with schedule
      (started h (List.map body app)).
    - intros w. exact Logic.I.
    - intros; exact Logic.I.
    - intros w. now apply within_ok with (Rel := queue_step); [apply queue_step_cap|].
    - intros w. now apply within_ok with (Rel := queue_step); [apply queue_step_cap|].
    - exact Hrun.
    - split; simpl.
      + unfold queue_within_cap. simpl. lia.
      + constructor.
        * now apply within_ok with (Rel := queue_step); [apply queue_step_cap|].
        * apply List.Forall_forall. intros g Hg.
          apply in_map_iff in Hg. destruct Hg as [p [<- Hp]].
          apply in_map_iff in Hp. destruct Hp as [prog [<- _]]. simpl.
          apply within_ok with (Rel := queue_step); [apply queue_step_cap|].
          apply body_queue_step. }
  destruct Hk as [Hcap _]. exact Hcap.
Qed.

Lemma queue_never_exceeds_its_capacity_witness :
  run [(1, 0); (1, 0); (1, 0)]%nat (started sample_host [body sample_app]) =
    Some (set_queue [envelope sample_frame "y" INFO; envelope sample_frame "z" FATAL]
            (boot sample_host),
          [Daemon daemon; Body (fatal_wait ;; Ret tt)]) /\
  (length [envelope sample_frame "y" INFO; envelope sample_frame "z" FATAL] <= 32)%nat.
Proof.
  assert (Hrun :
    run [(1, 0); (1, 0); (1, 0)]%nat (started sample_host (List.map body [sample_app])) =
    Some (set_queue [envelope sample_frame "y" INFO; envelope sample_frame "z" FATAL]
            (boot sample_host),
          [Daemon daemon; Body (fatal_wait ;; Ret tt)])) by reflexivity.
  split; [exact Hrun|].
  apply (queue_never_exceeds_its_capacity sample_host [sample_app] _ _ Hrun).
Defined.

Lemma Open_and_Rotate_block_on_a_full_queue_holding_the_mutex_witness :
  let w := set_queue (repeat (envelope sample_frame "x" INFO) 32) (boot sample_host) in
  running w = true /\ lock w = false /\
  (queue_cap <= length (queue w))%nat /\ logLevel w <= INFO /\
  exists w' rest,
    exec (Open "/var/log/app.log" sample_here) w = [Blocked w' rest []] /\
    lock w' = true.
Proof.
  intros w.
  assert (Hfull : (queue_cap <= length (queue w))%nat) by (vm_compute; lia).
  assert (Hle : logLevel w <= INFO) by (vm_compute; discriminate).
  split; [reflexivity|]. split; [reflexivity|]. split; [exact Hfull|]. split; [exact Hle|].
  destruct (Open_and_Rotate_block_on_a_full_queue_holding_the_mutex
              "/var/log/app.log" sample_here (envelope sample_frame "x" INFO) w
              eq_refl eq_refl Hfull Hle) as [Hopen _].
  destruct (Hopen eq_refl) as (w' & rest & Hexec & Hlock & _).
  exists w', rest. now split.
Defined.

(** X12.  The logger can lock up.  The daemon has taken a message from
    the queue but not yet the mutex; the queue is full again; the
    application calls [Open] on a file that opens, with the threshold at
    INFO or below.  After the four actions of [Open] up to its send,
    [Open] waits for room in the queue while the daemon waits for the
    mutex: the process is running, both goroutines have code left, and no
    goroutine can move. *)
Theorem Open_and_daemon_deadlock :
  forall (f : string) (here : Z -> Frame) (msg : Message) (w : World),
    running w = true ->
    lock w = false ->
    (queue_cap <= length (queue w))%nat ->
    logLevel w <= INFO ->
    openfile (host w) f log_flags mode_0660 = None ->
    exists c : Config,
      run [(1, 0); (1, 0); (1, 0); (1, 0)]%nat
          (w, [Daemon (daemon_write msg ;; Ret false); Body (Open f here ;; Ret tt)])
        = Some c /\
      running (fst c) = true /\
      lock (fst c) = true /\
      queue (fst c) = queue w /\
      List.map alive (snd c) = [true; true] /\
      forall ij, sched ij c = None.
Proof.
  intros f here msg w Hrun Hlock Hfull Hle Hopen.
  apply Nat.ltb_ge in Hfull. unfold log_flags in Hopen.
  assert (Hi : (logLevel w >? INFO) = false).
  { destruct (Z.gtb_spec (logLevel w) INFO); [lia | reflexivity]. }
  destruct w as [lv [wr pa] pre q qs ts lk hd [opn nfd clk o sy] st].
  apply running_status in Hrun. simpl in *. subst.
  eexists. split.
  { unfold run, sched, moves, running. simpl. rewrite Hopen. simpl.
    rewrite Hi. simpl. reflexivity. }
  simpl. do 4 (split; [reflexivity|]).
  intros [i j]. unfold sched, moves, running. simpl.
  destruct i as [|[|i]]; simpl; [reflexivity | | reflexivity].
  rewrite Hfull. reflexivity.
Qed.

Lemma Open_and_daemon_deadlock_witness :
  let w := set_queue (repeat (envelope sample_frame "x" INFO) 32) (boot sample_host) in
  running w = true /\ lock w = false /\
  (queue_cap <= length (queue w))%nat /\ logLevel w <= INFO /\
  exists c : Config,
    run [(1, 0); (1, 0); (1, 0); (1, 0)]%nat
        (w, [Daemon (daemon_write (envelope sample_frame "x" INFO) ;; Ret false);
             Body (Open "/var/log/app.log" sample_here ;; Ret tt)]) = Some c /\
    forall ij, sched ij c = None.
Proof.
  intros w.
  assert (Hfull : (queue_cap <= length (queue w))%nat) by (vm_compute; lia).
  assert (Hle : logLevel w <= INFO) by (vm_compute; discriminate).
  split; [reflexivity|]. split; [reflexivity|]. split; [exact Hfull|]. split; [exact Hle|].
  destruct (Open_and_daemon_deadlock "/var/log/app.log" sample_here
              (envelope sample_frame "x" INFO) w eq_refl eq_refl Hfull Hle eq_refl)
    as (c & Hrun & _ & _ & _ & _ & Hstuck).
  exists c. now split.
Defined.

(* ================================================================== *)
(** * The earlier revision: the daemon filters again *)
(* ================================================================== *)

(** X13.  In the earlier revision the daemon compares the level of the
    message with the threshold again when it handles it.  For a message
    with a level of the table, mutex free and signal channel empty: the
    message is written (as [[<level> @ <stamp>] <prefix><text>] and a
    newline, without a caller) exactly when its level is at or above the
    threshold of that moment; a FATAL message is signalled whether it was
    written or not. *)
Theorem Rev0_daemon_filters_at_write_time :
  forall (msg : Rev0.Message) (s : Rev0.State) (name : string),
    Rev0.lock s = false ->
    Rev0.quit_signal s = [] ->
    level_string_at (Rev0.level msg) = Some name ->
    let line :=
      Rev0.spec_line name (Text.Format_stamp (clock (Rev0.host s)))
        (Rev0.prefix s) (Rev0.message msg) in
    let signalled (s' : Rev0.State) :=
      if Rev0.level msg =? FATAL then Rev0.with_quit_signal [zero] s' else s' in
    (Rev0.logLevel s <= Rev0.level msg ->
       Rev0.daemon_message msg s =
         Rev0.Done (signalled
           (Rev0.with_host
              (host_write (writer (Rev0.logger s)) line (Rev0.host s)) s))) /\
    (Rev0.level msg < Rev0.logLevel s ->
       Rev0.daemon_message msg s = Rev0.Done (signalled s)).
Proof.
  intros msg s name Hlock Hquit Hname line signalled.
  subst line signalled. unfold Rev0.spec_line.
  destruct msg as [text lvl].
  destruct s as [lv [wr pa] pre q qs lk [opn nfd clk o sy] ex].
  simpl in *. subst. split.
  - intros Hle. unfold Rev0.daemon_message. simpl.
    destruct (Z.geb_spec lvl lv) as [_|Hlt]; [|lia].
    rewrite Hname. simpl.
    destruct (lvl =? FATAL); reflexivity.
  - intros Hlt. unfold Rev0.daemon_message. simpl.
    destruct (Z.geb_spec lvl lv) as [Hge|_]; [lia|].
    simpl. destruct (lvl =? FATAL); reflexivity.
Qed.

Lemma Rev0_daemon_filters_at_write_time_witness :
  Rev0.lock (Rev0.with_logLevel WARN (Rev0.boot sample_host)) = false /\
  Rev0.quit_signal (Rev0.with_logLevel WARN (Rev0.boot sample_host)) = [] /\
  level_string_at INFO = Some "INFO" /\
  Rev0.daemon_message {| Rev0.message := "y"; Rev0.level := INFO |}
    (Rev0.with_logLevel WARN (Rev0.boot sample_host)) =
    Rev0.Done (Rev0.with_logLevel WARN (Rev0.boot sample_host)).
Proof.
  repeat (split; [reflexivity|]).
  apply (Rev0_daemon_filters_at_write_time
           {| Rev0.message := "y"; Rev0.level := INFO |}
           (Rev0.with_logLevel WARN (Rev0.boot sample_host)) "INFO"
           eq_refl eq_refl eq_refl).
  reflexivity.
Defined.

(** X14.  In the earlier revision a threshold above FATAL silences
    [Fatal].  With such a threshold, the queue and the signal channel
    empty and the mutex free: [Fatal] queues its message and waits; the
    daemon's turn takes the message, writes nothing and signals; the wait
    of [Fatal] then takes the signal and exits with code 1.  Nothing was
    written. *)
Theorem Rev0_Fatal_above_threshold_exits_unwritten :
  forall (msg : string) (s : Rev0.State),
    FATAL < Rev0.logLevel s ->
    Rev0.queue s = [] ->
    Rev0.quit_signal s = [] ->
    Rev0.lock s = false ->
    let queued :=
      Rev0.with_queue [{| Rev0.message := msg; Rev0.level := FATAL |}] s in
    let signalled := Rev0.with_quit_signal [zero] s in
    Rev0.Fatal msg s = Rev0.Waiting queued /\
    Rev0.daemon_turn queued = Rev0.Done signalled /\
    Rev0.Fatal_wait signalled = Rev0.Done (Rev0.with_exited (Some 1) s) /\
    out (Rev0.host (Rev0.with_exited (Some 1) s)) = out (Rev0.host s).
Proof.
  intros msg s Hlv Hq Hsig Hlock queued signalled. subst queued signalled.
  destruct s as [lv [wr pa] pre q qs lk [opn nfd clk o sy] ex].
  simpl in *. subst.
  assert (Hge : (FATAL >=? lv) = false).
  { destruct (Z.geb_spec FATAL lv); [lia | reflexivity]. }
  split; [reflexivity|]. split; [|split; reflexivity].
  unfold Rev0.daemon_turn, Rev0.daemon_message. simpl.
  rewrite Hge. reflexivity.
Qed.

Lemma Rev0_Fatal_above_threshold_exits_unwritten_witness :
  FATAL < Rev0.logLevel (Rev0.with_logLevel 5 (Rev0.boot sample_host)) /\
  Rev0.daemon_turn
    (Rev0.with_queue [{| Rev0.message := "z"; Rev0.level := FATAL |}]
       (Rev0.with_logLevel 5 (Rev0.boot sample_host))) =
    Rev0.Done (Rev0.with_quit_signal [zero]
                 (Rev0.with_logLevel 5 (Rev0.boot sample_host))).
Proof.
  split; [reflexivity|].
  apply (Rev0_Fatal_above_threshold_exits_unwritten "z"
           (Rev0.with_logLevel 5 (Rev0.boot sample_host))
           eq_refl eq_refl eq_refl eq_refl).
Defined.

(* ================================================================== *)
(** * Where the confirmation of a swap is written *)
(* ================================================================== *)

Lemma exec_Open_success (f : string) (here : Z -> Frame) (w : World) :
  running w = true ->
  lock w = false ->
  logLevel w <= INFO ->
  (length (queue w) < queue_cap)%nat ->
  openfile (host w) f log_flags mode_0660 = None ->
  exec (Open f here) w =
    [Done (set_queue (queue w ++ [envelope (here 116) (Text.Sprintf "Log ready." []) INFO])
             (set_logger {| writer := os_Fd (next_fd (host w)); path := f |}
                (set_host (host_opened (host w)) w))) None []].
Proof.
  intros Hrun Hlock Hle Hlen Hopen. unfold log_flags in Hopen.
  apply Nat.ltb_lt in Hlen.
  destruct w as [lv [wr pa] pre q qs ts lk hd [opn nfd clk o sy] st].
  apply running_status in Hrun. simpl in *. subst.
  unfold INFO in *. simpl. rewrite Hopen. simpl.
  case_gtb; [lia|]. simpl. rewrite Hlen. reflexivity.
Qed.

Lemma exec_Rotate_success (here : Z -> Frame) (w : World) :
  running w = true ->
  lock w = false ->
  logLevel w <= INFO ->
  (length (queue w) < queue_cap)%nat ->
  path (logger w) <> "" ->
  openfile (host w) (path (logger w)) log_flags mode_0660 = None ->
  exec (Rotate here) w =
    [Done (set_queue
             (queue w ++
              [envelope (here 342)
                 (Text.Sprintf "Reopened log file %s" [AStr (path (logger w))]) INFO])
             (set_logger {| writer := os_Fd (next_fd (host w)); path := path (logger w) |}
                (set_host (host_opened (host (synced_world w))) (synced_world w))))
       None []].
Proof.
  intros Hrun Hlock Hle Hlen Hpath Hopen. unfold log_flags in Hopen.
  apply Nat.ltb_lt in Hlen. unfold synced_world.
  destruct w as [lv [wr pa] pre q qs ts lk hd [opn nfd clk o sy] st].
  apply running_status in Hrun. simpl in *. subst.
  assert (Hne : String.eqb pa "" = false) by now apply String.eqb_neq.
  unfold INFO in *. simpl. rewrite Hne. simpl. rewrite Hopen. simpl.
  case_gtb; [lia|]. simpl. rewrite Hlen. reflexivity.
Qed.

(** X15.  [Open] and [Rotate] queue their confirmation before they
    return, and the daemon reads the destination when it writes.  With
    the queue empty, no stop signal, the mutex free and the threshold at
    INFO or below, after a successful [Open] or [Rotate] the daemon's
    next turn writes the confirmation, an INFO line, to the newly opened
    descriptor. *)
Theorem confirmation_goes_to_the_new_descriptor :
  forall (f : string) (here : Z -> Frame) (w : World),
    running w = true ->
    lock w = false ->
    termsig w = [] ->
    queue w = [] ->
    logLevel w <= INFO ->
    let line (m : Message) :=
      Line.spec_line "INFO" (Text.Format_stamp (clock (host w)))
        (caller_filename (caller m)) (caller_line (caller m)) (prefix w) (message m) in
    (openfile (host w) f log_flags mode_0660 = None ->
       exists w1 w2,
         exec (Open f here) w = [Done w1 None []] /\
         exec daemon_turn w1 = [Done w2 false []] /\
         out (host w2) =
           out (host w) ++
           [(os_Fd (next_fd (host w)),
             line (envelope (here 116) "Log ready." INFO))]) /\
    (path (logger w) <> "" ->
     openfile (host w) (path (logger w)) log_flags mode_0660 = None ->
       exists w1 w2,
         exec (Rotate here) w = [Done w1 None []] /\
         exec daemon_turn w1 = [Done w2 false []] /\
         out (host w2) =
           out (host w) ++
           [(os_Fd (next_fd (host w)),
             line (envelope (here 342)
                     (Text.Sprintf "Reopened log file %s" [AStr (path (logger w))])
                     INFO))]).
Proof.
  intros f here w Hrun Hlock Hsig Hq Hle line. subst line.
  assert (Hroom : (length (queue w) < queue_cap)%nat)
    by (rewrite Hq; unfold queue_cap; simpl; lia).
  assert (HI : level_string_at INFO = Some "INFO") by reflexivity.
  split.
  - intros Hopen.
    eexists. eexists.
    split; [now apply exec_Open_success|].
    split.
    + apply daemon_turn_prints with (more := []) (name := "INFO").
      * exact Hrun.
      * exact Hlock.
      * exact Hsig.
      * simpl. rewrite Hq. reflexivity.
      * rewrite envelope_level. discriminate.
      * rewrite envelope_level. exact HI.
    + unfold printed. rewrite envelope_level. simpl. reflexivity.
  - intros Hpath Hopen.
    eexists. eexists.
    split; [now apply exec_Rotate_success|].
    split.
    + apply daemon_turn_prints with (more := []) (name := "INFO").
      * exact Hrun.
      * exact Hlock.
      * exact Hsig.
      * simpl. rewrite Hq. reflexivity.
      * rewrite envelope_level. discriminate.
      * rewrite envelope_level. exact HI.
    + unfold printed. rewrite envelope_level. simpl. reflexivity.
Qed.

Lemma confirmation_goes_to_the_new_descriptor_witness :
  exists w1 w2 : World,
    exec (Open "/var/log/app.log" sample_here) (boot sample_host) = [Done w1 None []] /\
    exec daemon_turn w1 = [Done w2 false []] /\
    out (host w2) =
      [(os_Fd 3, "[ INFO @ Oct 31 05:14:07.012][golog.go:116] Log ready." +:+ LF)].
Proof.
  pose proof (confirmation_goes_to_the_new_descriptor "/var/log/app.log" sample_here
                (boot sample_host) eq_refl eq_refl eq_refl eq_refl) as H.
  cbv zeta in H.
  destruct H as [H _]; [discriminate|].
  destruct (H eq_refl) as (w1 & w2 & H1 & H2 & Hout).
  exists w1, w2. split; [exact H1|]. split; [exact H2|].
  rewrite Hout. reflexivity.
Defined.

(** X16.  [Start] never sets the flag itself.  With the flag set it
    changes nothing and starts nothing; with the flag clear it starts one
    goroutine running [daemon()] and returns with the flag still clear,
    so a second [Start] before that goroutine runs starts another. *)
Theorem Start_leaves_the_flag_to_the_daemon :
  forall w : World,
    running w = true ->
    (has_daemon w = true -> exec Start w = [Done w tt []]) /\
    (has_daemon w = false ->
       exec Start w = [Done w tt [Daemon daemon]] /\
       exec (Start ;; Start) w = [Done w tt [Daemon daemon; Daemon daemon]]).
Proof.
  intros w Hrun. split; intros Hflag; open_world w; [|split]; reflexivity.
Qed.

Lemma Start_leaves_the_flag_to_the_daemon_witness :
  running (boot sample_host) = true /\
  exec (Start ;; Start) (boot sample_host) =
    [Done (boot sample_host) tt [Daemon daemon; Daemon daemon]].
Proof.
  split; [reflexivity|].
  apply (Start_leaves_the_flag_to_the_daemon (boot sample_host) eq_refl).
  reflexivity.
Defined.

(* ================================================================== *)
(** * The flush barrier, with any number of callers *)
(* ================================================================== *)

Lemma fatal_written_grows (w1 w2 : World) :
  (exists es, out (host w2) = out (host w1) ++ es) ->
  keeps_written w1 w2.
Proof.
  intros [es Hes] (f & stamp & file & line & pre & text & Hin).
  exists f, stamp, file, line, pre, text.
  rewrite Hes. apply in_or_app. now left.
Qed.

Lemma signal_update (w1 w2 : World) :
  signal_after_write w1 ->
  (exists es, out (host w2) = out (host w1) ++ es) ->
  quit_signal w2 = quit_signal w1 ->
  (status w2 = status w1 \/ exists why, status w2 = Panicked why) ->
  signal_after_write w2 /\ keeps_written w1 w2.
Proof.
  intros (Hs1 & Hs2) Ho Hsig Hst.
  pose proof (fatal_written_grows w1 w2 Ho) as Hmono.
  split; [|exact Hmono]. split.
  - rewrite Hsig. auto.
  - destruct Hst as [->|[why ->]]; [auto | discriminate].
Qed.

Lemma api_step_signal (w1 w2 : World) :
  api_step false w1 w2 -> signal_after_write w1 ->
  signal_after_write w2 /\ keeps_written w1 w2.
Proof.
  intros (_ & Ho & Hs & Hsig) Hi.
  apply signal_update; auto.
  - destruct Hsig as [->|[? _]]; [reflexivity | discriminate].
  - destruct Hs as [->|[->|[? _]]]; [now left | right; eauto | discriminate].
Qed.

Lemma keeps_written_refl (w : World) : keeps_written w w.
Proof. unfold keeps_written. auto. Qed.

Lemma keeps_written_trans (a b c : World) :
  keeps_written a b -> keeps_written b c -> keeps_written a c.
Proof. unfold keeps_written. auto. Qed.

Lemma Fatal_signal (msg : string) (fr : Frame) (w : World) :
  ok signal_after_write keeps_written anything w (Fatal msg fr).
Proof.
  unfold Fatal.
  apply ok_bind with (Q := anything).
  - apply ok_await. intros w1 _ Hi _ _. simpl.
    destruct (signal_update w1 (set_queue (queue w1 ++ [envelope fr msg FATAL]) w1) Hi)
      as [Hi' Hk]; [now apply out_same | reflexivity | now left |].
    split; [exact Hi'|]. split; [exact Hk | exact Logic.I].
  - intros _ w1 _.
    apply ok_bind with (Q := fun _ w' => fatal_written w').
    + apply ok_await. intros w2 _ (Hs1 & Hs2) _ Hready. simpl.
      assert (Hd : fatal_written w2).
      { apply Hs1. destruct (quit_signal w2); [discriminate | congruence]. }
      split; [|split; [|exact Hd]].
      * split; intros _; exact Hd.
      * intros _. exact Hd.
    + intros _ w2 Hd. apply ok_atomic.
      intros w3 Hg (Hs1 & Hs2) _. simpl.
      pose proof (Hg Hd) as Hd3.
      split; [|split; [|exact Logic.I]].
      * split; intros _; exact Hd3.
      * intros _. exact Hd3.
Qed.

Lemma daemon_write_signal (msg : Message) (w : World) :
  ok signal_after_write keeps_written anything w (daemon_write msg).
Proof.
  unfold daemon_write.
  apply ok_bind with (Q := anything).
  { apply ok_await. intros w1 _ Hi _ _. simpl.
    destruct (signal_update w1 (set_lock true w1) Hi) as [Hi' Hk];
      [now apply out_same | reflexivity | now left |].
    split; [exact Hi'|]. split; [exact Hk | exact Logic.I]. }
  intros _ w1 _.
  apply ok_bind with (Q := fun _ w' => level msg = FATAL -> fatal_written w').
  { apply ok_atomic. intros w2 _ Hi _. simpl.
    destruct (level_string_at (level msg)) as [name|] eqn:Hname.
    - match goal with |- signal_after_write ?w /\ _ => set (w3 := w) end.
      destruct (signal_update w2 w3 Hi) as [Hi' Hk];
        [eexists; reflexivity | reflexivity | now left |].
      split; [exact Hi'|]. split; [exact Hk|].
      intros Hf. rewrite Hf in Hname. inversion Hname; subst name.
      exists (writer (logger w2)), (Text.Format_stamp (clock (host w2))),
        (caller_filename (caller msg)), (caller_line (caller msg)),
        (prefix w2), (message msg).
      subst w3. simpl. apply in_or_app. right. left. reflexivity.
    - match goal with |- signal_after_write ?w /\ _ => set (w3 := w) end.
      destruct (signal_update w2 w3 Hi) as [Hi' Hk];
        [now apply out_same | reflexivity | right; eexists; reflexivity |].
      split; [exact Hi'|]. split; [exact Hk|].
      intros Hf. rewrite Hf in Hname. discriminate Hname. }
  intros _ w2 Hd.
  apply ok_bind with (Q := anything).
  - destruct (Z.eqb_spec (level msg) FATAL) as [Hf|Hf]; [|now apply ok_Ret].
    apply ok_await. intros w3 Hg (Hs1 & Hs2) _ _. simpl.
    assert (Hd3 : fatal_written w3) by (apply Hg; now apply Hd).
    split; [|split; [|exact Logic.I]].
    + split; [intros _; exact Hd3 | exact Hs2].
    + intros _. exact Hd3.
  - intros _ w3 _. apply ok_atomic. intros w4 _ Hi _. simpl.
    match goal with |- signal_after_write ?w /\ _ => set (w5 := w) end.
    destruct (signal_update w4 w5 Hi) as [Hi' Hk]; subst w5.
    + apply out_same. destruct (lock w4); reflexivity.
    + destruct (lock w4); reflexivity.
    + destruct (lock w4); [now left | right; eexists; reflexivity].
    + split; [exact Hi'|]. split; [exact Hk | exact Logic.I].
Qed.

Lemma daemon_turn_signal (w : World) :
  ok signal_after_write keeps_written anything w daemon_turn.
Proof.
  unfold daemon_turn.
  apply ok_bind with (Q := anything).
  - apply ok_Step; intros w1 w2 k _ Hi Hrun Hin;
      apply in_app_iff in Hin;
      (destruct Hin as [Hin|Hin];
       [destruct (termsig w1) as [|b rest]; [destruct Hin|] |
        destruct (queue w1) as [|m rest] eqn:Hq; [destruct Hin|]]);
      destruct Hin as [Heq|[]]; inversion Heq; subst; simpl.
    + apply (signal_update w1 _ Hi); [now apply out_same | reflexivity | now left].
    + apply (signal_update w1 _ Hi); [now apply out_same | reflexivity | now left].
    + now apply ok_Ret.
    + now apply ok_Ret.
  - intros [m|] w' _.
    + apply ok_bind with (Q := anything); [|intros; now apply ok_Ret].
      apply daemon_write_signal.
    + now apply ok_Ret.
Qed.

Lemma daemon_signal (w : World) :
  ok signal_after_write keeps_written anything w daemon.
Proof.
  unfold daemon. apply ok_bind with (Q := anything).
  - apply ok_atomic. intros w1 _ Hi _. simpl.
    destruct (signal_update w1 (set_has_daemon true w1) Hi) as [Hi' Hk];
      [now apply out_same | reflexivity | now left |].
    split; [exact Hi'|]. split; [exact Hk | exact Logic.I].
  - intros _ w' _. apply daemon_turn_signal.
Qed.

Lemma perform_signal {R : Type} (c : call R) (w : World) :
  ok signal_after_write keeps_written anything w (perform c).
Proof.
  destruct (fatal_call c) eqn:Hc.
  - destruct c; try discriminate Hc; simpl.
    + apply Fatal_signal.
    + apply (Fatal_signal (Text.Sprintf format a)).
  - apply within_ok with (Rel := api_step false); [apply api_step_signal|].
    apply perform_within. now right.
Qed.

Lemma body_signal (p : program) (w : World) :
  ok signal_after_write keeps_written anything w (body p).
Proof.
  revert w. induction p as [|R c next IH]; intros w; simpl.
  - now apply ok_Ret.
  - apply ok_bind with (Q := anything); [apply perform_signal|].
    intros r w' _. apply IH.
Qed.

(** Whatever the application calls, with any number of goroutines
    calling [Fatal], a signal is in the channel, and the process has
    exited with code 1, only after the daemon wrote a FATAL line. *)
Lemma signal_after_a_fatal_line (h : Host) (app : list program)
    (schedule : list (nat * nat)) (c : Config) :
  run schedule (started h (List.map body app)) = Some c ->
  signal_after_write (fst c).
Proof.
  intros Hrun.
  assert (Hk : kept signal_after_write keeps_written c).
  { apply (run_kept signal_after_write keeps_written) with schedule
      (started h (List.map body app)).
    - apply keeps_written_refl.
    - apply keeps_written_trans.
    - apply daemon_signal.
    - apply daemon_turn_signal.
    - exact Hrun.
    - split; simpl.
      + split; [intros H; now elim H | discriminate].
      + constructor; [apply daemon_signal|].
        apply List.Forall_forall. intros g Hg.
        apply in_map_iff in Hg. destruct Hg as [p [<- Hp]].
        apply in_map_iff in Hp. destruct Hp as [prog [<- _]]. simpl.
        apply body_signal. }
  now destruct Hk as [Hi _].
Qed.

(** The whole run of one call of [Fatal]: the line is written to the
    destination, then the process exits with code 1. *)
Lemma Fatal_run (h : Host) (msg : string) (fr : Frame) :
  run fatal_schedule (started h [Fatal msg fr]) =
    Some (after_Fatal h msg fr, [Daemon (Ret false); Body (Ret tt)]).
Proof.
  destruct fr as [[file line]|]; reflexivity.
Qed.

(** The daemon's turn on a FATAL envelope at the front of the queue:
    it writes the line, then signals. *)
Lemma daemon_turn_on_fatal (msg : string) (fr : Frame) (more : list Message)
    (w : World) :
  running w = true ->
  lock w = false ->
  termsig w = [] ->
  quit_signal w = [] ->
  queue w = envelope fr msg FATAL :: more ->
  let w' := printed (envelope fr msg FATAL) "FATAL" (set_queue more w) in
  exec daemon_turn w = [Done w' false []] /\
  quit_signal w' = [zero] /\
  out (host w') =
    out (host w) ++
    [(writer (logger w),
      Line.spec_line "FATAL" (Text.Format_stamp (clock (host w)))
        (caller_filename (caller (envelope fr msg FATAL)))
        (caller_line (caller (envelope fr msg FATAL)))
        (prefix w) msg)].
Proof.
  intros Hrun Hlock Hsig Hquit Hq w'. subst w'.
  split; [|split].
  - apply daemon_turn_prints; auto.
    rewrite envelope_level. reflexivity.
  - unfold printed. rewrite envelope_level. reflexivity.
  - unfold printed. rewrite envelope_level, envelope_message. reflexivity.
Qed.

Lemma last_two_cons (c : ascii) (s : string) :
  (2 <= String.length s)%nat -> last_two (String c s) = last_two s.
Proof.
  destruct s as [|a [|b r]]; simpl; intros H; try lia; reflexivity.
Qed.

Lemma length_app_ge (x y : string) :
  (String.length y <= String.length (x +:+ y))%nat.
Proof.
  induction x as [|c x IH]; [reflexivity|].
  change (String c x +:+ y) with (String c (x +:+ y)). simpl. lia.
Qed.

Lemma last_two_app (x y : string) :
  (2 <= String.length y)%nat -> last_two (x +:+ y) = last_two y.
Proof.
  intros Hy. induction x as [|c x IH]; [reflexivity|].
  change (String c x +:+ y) with (String c (x +:+ y)).
  rewrite last_two_cons; [exact IH|].
  pose proof (length_app_ge x y). lia.
Qed.

Lemma spec_line_last_two (name stamp file : string) (line : Z) (pre : string)
    (c : ascii) :
  last_two (Line.spec_line name stamp file line pre (String c "")) = String c LF.
Proof.
  unfold Line.spec_line.
  assert (H0 : (2 <= String.length (String c "" +:+ LF))%nat) by (simpl; lia).
  assert (step : forall x y, (2 <= String.length y)%nat ->
                   (2 <= String.length (x +:+ y))%nat).
  { intros x y Hy. pose proof (length_app_ge x y). lia. }
  repeat (rewrite last_two_app; [|solve [repeat (first [exact H0 | apply step])]]).
  reflexivity.
Qed.

(** C1, the case that departs from it.  Two goroutines call [Fatal].
    Both send; the daemon writes the line of the first message and
    signals; the second caller takes that signal and exits the process
    with code 1.  Its own message is still in the queue and no line of it
    was written; the first caller is still waiting. *)
Lemma Fatal_exits_on_another_callers_signal :
  run two_fatal_schedule
      (started sample_host [Fatal "a" sample_frame; Fatal "b" sample_frame]) =
    Some (after_two_Fatal, [Daemon (Ret false); Body fatal_wait; Body (Ret tt)]) /\
  status after_two_Fatal = Exited 1 /\
  out (host after_two_Fatal) =
    [(os_Stderr, "[FATAL @ Oct 31 05:14:07.012][main.go:42] a" +:+ LF)] /\
  In (envelope sample_frame "b" FATAL) (queue after_two_Fatal) /\
  ~ delivered (envelope sample_frame "b" FATAL) after_two_Fatal.
Proof.
  split; [reflexivity|]. split; [reflexivity|]. split; [reflexivity|].
  split; [now left|].
  intros (f & stamp & pre & Hin).
  destruct Hin as [Heq|[]].
  apply (f_equal snd) in Heq. simpl in Heq.
  apply (f_equal last_two) in Heq.
  change (message (envelope sample_frame "b" FATAL)) with "b" in Heq.
  rewrite spec_line_last_two in Heq.
  vm_compute in Heq. discriminate Heq.
Qed.

(** C1, as the code has it.  [Fatal] (and [Fatalf], which is [Fatal] of
    the rendered text) in a running process.  Whatever the threshold, its
    first action puts a FATAL envelope at the back of the queue; it then
    stays blocked as long as the signal channel is empty, and when the
    channel holds a signal it takes it and exits the process with code 1.
    The daemon, reaching that envelope, writes its line and then puts a
    signal in the channel; the run of a process that calls [Fatal] once
    ends with the line written and exit code 1.  In every process, with
    any number of callers of [Fatal], a signal is in the channel and the
    process has exited with code 1 only after the daemon wrote a FATAL
    line; when one goroutine calls [Fatal] and no other does, that line
    is the line of the caller's envelope. *)
Theorem Fatal_enqueues_waits_and_exits :
  forall (msg : string) (fr : Frame) (w : World),
    running w = true ->
    (forall format a, Fatalf format a fr = Fatal (Text.Sprintf format a) fr) /\
    level (envelope fr msg FATAL) = FATAL /\
    ((length (queue w) < queue_cap)%nat -> quit_signal w = [] ->
       exec (Fatal msg fr) w =
         [Blocked (set_queue (queue w ++ [envelope fr msg FATAL]) w) fatal_wait []]) /\
    (quit_signal w = [] -> exec fatal_wait w = [Blocked w fatal_wait []]) /\
    (forall b rest, quit_signal w = b :: rest ->
       exec fatal_wait w =
         [Halted (set_status (Exited 1) (set_quit_signal rest w)) []]) /\
    (forall more,
       lock w = false -> termsig w = [] -> quit_signal w = [] ->
       queue w = envelope fr msg FATAL :: more ->
       let w' := printed (envelope fr msg FATAL) "FATAL" (set_queue more w) in
       exec daemon_turn w = [Done w' false []] /\
       quit_signal w' = [zero] /\
       out (host w') =
         out (host w) ++
         [(writer (logger w),
           Line.spec_line "FATAL" (Text.Format_stamp (clock (host w)))
             (caller_filename (caller (envelope fr msg FATAL)))
             (caller_line (caller (envelope fr msg FATAL)))
             (prefix w) msg)]) /\
    (forall h : Host,
       run fatal_schedule (started h [Fatal msg fr]) =
         Some (after_Fatal h msg fr, [Daemon (Ret false); Body (Ret tt)]) /\
       status (after_Fatal h msg fr) = Exited 1 /\
       delivered (envelope fr msg FATAL) (after_Fatal h msg fr)) /\
    (forall (h : Host) (app : list program)
            (schedule : list (nat * nat)) (c : Config),
       run schedule (started h (List.map body app)) = Some c ->
       (quit_signal (fst c) <> [] -> fatal_written (fst c)) /\
       (status (fst c) = Exited 1 -> fatal_written (fst c))) /\
    (forall (h : Host) (before : program) (others : list program)
            (schedule : list (nat * nat)) (c : Config),
       fatal_free before ->
       Forall fatal_free others ->
       run schedule
           (started h ((body before ;; Fatal msg fr) :: List.map body others))
         = Some c ->
       status (fst c) = Exited 1 ->
       delivered (envelope fr msg FATAL) (fst c)).
Proof.
  intros msg fr w Hrun.
  split; [reflexivity|].
  split; [apply envelope_level|].
  split; [intros Hlen Hq; now apply exec_Fatal_send|].
  split; [now apply exec_fatal_wait_empty|].
  split; [intros b rest Hq; exact (exec_fatal_wait_signal w b rest Hrun Hq)|].
  split; [intros more Hlock Hsig Hquit Hq; now apply daemon_turn_on_fatal|].
  split.
  { intros h. split; [apply Fatal_run|]. split; [reflexivity|].
    exists os_Stderr, (Text.Format_stamp (clock h)), "".
    unfold after_Fatal. simpl. rewrite envelope_message.
    apply in_or_app. right. now left. }
  split.
  { intros h app schedule c Hr.
    exact (signal_after_a_fatal_line h app schedule c Hr). }
  intros h before others schedule c Hbefore Hothers Hr Hexit.
  apply (exit_after_line (envelope fr msg FATAL) (envelope_level fr msg FATAL)
           h before others schedule c Hbefore Hothers Hr Hexit).
Qed.

Lemma Fatal_enqueues_waits_and_exits_witness :
  running (boot sample_host) = true /\
  exec (Fatal "z" sample_frame) (boot sample_host) =
    [Blocked (set_queue [envelope sample_frame "z" FATAL] (boot sample_host))
       fatal_wait []] /\
  run fatal_schedule (started sample_host [Fatal "z" sample_frame]) =
    Some (after_Fatal sample_host "z" sample_frame,
          [Daemon (Ret false); Body (Ret tt)]) /\
  out (host (after_Fatal sample_host "z" sample_frame)) =
    [(os_Stderr, "[FATAL @ Oct 31 05:14:07.012][main.go:42] z" +:+ LF)].
Proof.
  pose proof (Fatal_enqueues_waits_and_exits "z" sample_frame (boot sample_host)
                eq_refl) as (_ & _ & Hsend & _ & _ & _ & Hrun & _).
  split; [reflexivity|]. split; [|split].
  - apply Hsend; [unfold queue_cap; simpl; lia | reflexivity].
  - apply (Hrun sample_host).
  - reflexivity.
Defined.

(* ================================================================== *)
(** * Fatal without a daemon *)
(* ================================================================== *)




